(** * Rift Engine web client: a shallow embedding and its verified properties

    The development follows the source tree of the client:

    - [Champions]        the static tables of [lib/champions.ts];
    - [JsString]         the string built-ins the components call
                         ([toLowerCase], [includes], the regular expression
                         [/(\d+)%/], [parseInt]);
    - [JsNumber]         double-precision arithmetic;
    - [ChampionInput]    the suggestion list of the champion text box;
    - [ConfidenceMeter]  the confidence bar;
    - [SimulatePage]     the draft state of the simulation page and the
                         request it posts;
    - [CoachPage]        the lane state assembled by [runAnalysis];
    - [Engine]           the server-side search engine, which the client
                         only reaches over HTTP;
    - [ChampionBox]      the state of the champion text box;
    - [Sidebar]          the navigation and its active entry;
    - [Api]              the addresses and bodies of [lib/api.ts];
    - [RoleTabs], [PatchesPage]  the patches page and its role tabs;
    - [JsMath], [JsText] more built-ins ([Math.max], [padStart], [sort]);
    - [SimulateView]     the gold chart and the deep dive of the
                         simulation page;
    - [CoachWizard]      the steps of the coach page, its request and the
                         action breakdown;
    - [ConfidenceLabels] labels that carry a percentage.

    JavaScript strings are modelled as [string] (sequences of code units
    below 256). Numbers are modelled as rationals, and every arithmetic
    operator rounds its exact result to the nearest double ([JsNumber]);
    numbers read from text by [parseInt] and array indices are integers. *)

From Stdlib Require Import ZArith QArith Qround Qpower Lia Lqa.
From Stdlib Require Import Ascii String DecimalString.
From stdpp Require Import base tactics option list.

Local Open Scope Z_scope.
Local Open Scope string_scope.

(** ** lib/champions.ts *)

Module Champions.

Definition CHAMPIONS : list string :=
  [ "Aatrox"; "Ahri"; "Akali"; "Akshan"; "Alistar"; "Amumu"; "Anivia"; "Annie"; "Aphelios"; "Ashe";
    "AurelionSol"; "Azir"; "Bard"; "BelVeth"; "Blitzcrank"; "Brand"; "Braum"; "Briar"; "Caitlyn"; "Camille";
    "Cassiopeia"; "ChoGath"; "Corki"; "Darius"; "Diana"; "DrMundo"; "Draven"; "Ekko"; "Elise"; "Evelynn";
    "Ezreal"; "Fiddlesticks"; "Fiora"; "Fizz"; "Galio"; "Gangplank"; "Garen"; "Gnar"; "Gragas"; "Graves";
    "Gwen"; "Hecarim"; "Heimerdinger"; "Hwei"; "Illaoi"; "Irelia"; "Ivern"; "Janna"; "JarvanIV"; "Jax";
    "Jayce"; "Jhin"; "Jinx"; "KSante"; "KaiSa"; "Kalista"; "Karma"; "Karthus"; "Kassadin"; "Katarina";
    "Kayle"; "Kayn"; "Kennen"; "KhaZix"; "Kindred"; "Kled"; "KogMaw"; "LeBlanc"; "LeeSin"; "Leona";
    "Lillia"; "Lissandra"; "Lucian"; "Lulu"; "Lux"; "Malphite"; "Malzahar"; "Maokai"; "MasterYi"; "MissFortune";
    "Mordekaiser"; "Morgana"; "Nami"; "Nasus"; "Nautilus"; "Neeko"; "Nidalee"; "Nilah"; "Nocturne"; "Nunu";
    "Olaf"; "Orianna"; "Ornn"; "Pantheon"; "Poppy"; "Pyke"; "Qiyana"; "Quinn"; "Rakan"; "Rammus";
    "RekSai"; "Rell"; "Renata"; "Renekton"; "Rengar"; "Riven"; "Rumble"; "Ryze"; "Samira"; "Sejuani";
    "Senna"; "Seraphine"; "Sett"; "Shaco"; "Shen"; "Shyvana"; "Singed"; "Sion"; "Sivir"; "Skarner";
    "Smolder"; "Sona"; "Soraka"; "Swain"; "Sylas"; "Syndra"; "TahmKench"; "Taliyah"; "Talon"; "Taric";
    "Teemo"; "Thresh"; "Tristana"; "Trundle"; "Tryndamere"; "TwistedFate"; "Twitch"; "Udyr"; "Urgot"; "Varus";
    "Vayne"; "Veigar"; "VelKoz"; "Vex"; "Vi"; "Viego"; "Viktor"; "Vladimir"; "Volibear"; "Warwick";
    "Wukong"; "Xayah"; "Xerath"; "XinZhao"; "Yasuo"; "Yone"; "Yorick"; "Yuumi"; "Zac"; "Zed";
    "Zeri"; "Ziggs"; "Zilean"; "Zoe"; "Zyra" ].

Definition ROLES : list string := ["Top"; "Jungle"; "Mid"; "ADC"; "Support"].

Definition SUMMONER_SPELLS : list string :=
  ["Flash"; "Ignite"; "Teleport"; "Barrier"; "Exhaust"; "Cleanse"; "Ghost"; "Heal"].

Definition POSITIONS : list string :=
  ["under_tower"; "safe"; "middle"; "extended"; "river"].

Definition WAVE_POSITIONS : list string :=
  ["frozen_near_me"; "pushing_to_me"; "middle"; "slow_push_to_them"; "crashed"].

Definition ENEMY_JG_LOCATIONS : list string :=
  ["topside"; "botside"; "mid"; "unknown"].

End Champions.

(** ** String built-ins *)

Module JsString.

#[export] Instance string_eq_decision : EqDecision string := String.string_dec.

(** [String.prototype.toLowerCase] on one code unit below 256: the letters
    A-Z and the Latin-1 capitals U+00C0..U+00DE (the sign U+00D7 apart) move
    up by 32, every other unit stays. *)
Definition lower_char (c : ascii) : ascii :=
  let n := N_of_ascii c in
  if ((65 <=? n) && (n <=? 90) ||
      (192 <=? n) && (n <=? 222) && negb (n =? 215))%N
  then ascii_of_N (n + 32) else c.

Fixpoint toLowerCase (s : string) : string :=
  match s with
  | EmptyString => EmptyString
  | String c s' => String (lower_char c) (toLowerCase s')
  end.

(** [s.startsWith(t)] *)
Fixpoint startsWith (s t : string) {struct t} : bool :=
  match t, s with
  | EmptyString, _ => true
  | String _ _, EmptyString => false
  | String b t', String a s' => Ascii.eqb a b && startsWith s' t'
  end.

(** [s.includes(t)]: [t] occurs at some offset of [s]. *)
Fixpoint includes (s t : string) : bool :=
  startsWith s t ||
  match s with
  | EmptyString => false
  | String _ s' => includes s' t
  end.

(** The character class [\d] (without the unicode flag: 0-9 only). *)
Definition is_digit (c : ascii) : bool :=
  let n := N_of_ascii c in ((48 <=? n) && (n <=? 57))%N.

(** Every unit of the string is a decimal digit. *)
Fixpoint all_digits (s : string) : bool :=
  match s with
  | EmptyString => true
  | String c s' => is_digit c && all_digits s'
  end.

(** The label holds a non-empty run of digits with a percent sign after it. *)
Definition has_pct (label : string) : Prop :=
  exists pre ds post,
    label = pre ++ ds ++ "%" ++ post /\ ds <> "" /\ all_digits ds = true.

(** The longest run of digits at the head of [s], and what follows it. *)
Fixpoint span_digits (s : string) : string * string :=
  match s with
  | EmptyString => (EmptyString, EmptyString)
  | String c s' =>
      if is_digit c
      then let '(ds, rest) := span_digits s' in (String c ds, rest)
      else (EmptyString, s)
  end.

(** [/(\d+)%/] tried at the head of [s]. The quantifier is greedy, and giving
    back digits never helps, since the unit after a shorter run is a digit and
    not the percent sign: the attempt succeeds exactly when the longest run is
    not empty and a percent sign follows it. The result is capture group 1. *)
Definition match_pct_here (s : string) : option string :=
  match span_digits s with
  | (String d ds, String c _) =>
      if Ascii.eqb c "%" then Some (String d ds) else None
  | _ => None
  end.

(** [s.match(/(\d+)%/)]: the attempt at the leftmost offset that succeeds;
    [None] is JavaScript's [null]. *)
Fixpoint match_pct (s : string) : option string :=
  match match_pct_here s with
  | Some ds => Some ds
  | None =>
      match s with
      | EmptyString => None
      | String _ s' => match_pct s'
      end
  end.

Definition digit_value (c : ascii) : Z := Z.of_N (N_of_ascii c) - 48.

Fixpoint parse_digits (acc : Z) (s : string) : Z :=
  match s with
  | EmptyString => acc
  | String c s' => parse_digits (10 * acc + digit_value c) s'
  end.

(** [parseInt] on a non-empty string of decimal digits (radix 10). *)
Definition parseInt (s : string) : Z := parse_digits 0 s.

(** Template interpolation of an integral number (below 10^21, where
    JavaScript prints every digit). *)
Definition number_to_string (n : Z) : string :=
  NilZero.string_of_int (Z.to_int n).

End JsString.

(** ** Numbers *)

Module JsNumber.

(** A finite double is a rational [m * 2^e] with [|m| < 2^53]. The range
    of the exponent is not modelled, nor are NaN and the infinities: the
    quantities of these pages stay far from overflow and from the
    subnormal numbers, and the only divisor below is the constant 100. *)

Definition pow2 (e : Z) : Q := (2 ^ e)%Q.

(** The exponent [k] with [2^k <= x < 2^(k+1)], for [x > 0]. *)
Definition binade (x : Q) : Z :=
  let e0 := Z.log2 (Qnum x) - Z.log2 (Zpos (Qden x)) in
  if Qle_bool (pow2 e0) x then e0 else e0 - 1.

(** The nearest integer, ties to even. *)
Definition rne (x : Q) : Z :=
  let f := Qfloor x in
  match (x - inject_Z f ?= 1 # 2)%Q with
  | Lt => f
  | Gt => f + 1
  | Eq => if Z.even f then f else f + 1
  end.

(** The nearest double to a positive rational: 53 significant bits. *)
Definition round_pos (x : Q) : Q :=
  let e := binade x - 52 in
  (inject_Z (rne (x / pow2 e)) * pow2 e)%Q.

(** Round to nearest, ties to even. *)
Definition round (x : Q) : Q :=
  match (x ?= 0)%Q with
  | Eq => 0%Q
  | Gt => round_pos x
  | Lt => (- round_pos (- x))%Q
  end.

(** The rational is a double. *)
Definition representable (x : Q) : Prop := (round x == x)%Q.

(** The largest double below 1, [1 - 2^-53]. *)
Definition pred_one : Q := 9007199254740991 # 9007199254740992.

(** The operators [+], [-], [*] and [/] on numbers. *)
Definition add (x y : Q) : Q := round (x + y).
Definition sub (x y : Q) : Q := round (x - y).
Definition mul (x y : Q) : Q := round (x * y).
Definition div (x y : Q) : Q := round (x / y).

(** The comparisons [>=], [<=] and [<]. *)
Definition ge (x y : Q) : bool := Qle_bool y x.
Definition le (x y : Q) : bool := Qle_bool x y.
Definition lt (x y : Q) : bool := negb (Qle_bool y x).

(** [Math.floor] *)
Definition floor (x : Q) : Z := Qfloor x.

Declare Scope js_scope.
Delimit Scope js_scope with js.
Arguments add (x y)%_js.
Arguments sub (x y)%_js.
Arguments mul (x y)%_js.
Arguments div (x y)%_js.
Arguments ge (x y)%_js.
Arguments le (x y)%_js.
Arguments lt (x y)%_js.
Arguments floor x%_js.
Infix "+" := add : js_scope.
Infix "-" := sub : js_scope.
Infix "*" := mul : js_scope.
Infix "/" := div : js_scope.
Infix ">=?" := ge (at level 70, no associativity) : js_scope.
Infix "<=?" := le (at level 70, no associativity) : js_scope.
Infix "<?" := lt (at level 70, no associativity) : js_scope.

End JsNumber.

(** ** components/ChampionInput.tsx *)

Module ChampionInput.
Import Champions JsString.

(** [filter || value]: the empty string is the only falsy string. *)
Definition active_filter (filter value : string) : string :=
  match filter with
  | EmptyString => value
  | _ => filter
  end.

(** [CHAMPIONS.filter(c => c.toLowerCase().includes(
       (filter || value).toLowerCase())).slice(0, 8)] *)
Definition filtered (filter value : string) : list string :=
  take 8
    (List.filter
       (fun c => includes (toLowerCase c) (toLowerCase (active_filter filter value)))
       CHAMPIONS).

End ChampionInput.

(** ** components/ConfidenceMeter.tsx *)

Module ConfidenceMeter.
Import JsString.

(** [const match = label.match(/(\d+)%/);
     const pct = match ? parseInt(match[1]) : 50;]

    [parseInt] rounds a very long run of digits to the nearest double; the
    rounding is monotone and leaves 35 and 60 alone, so the comparisons
    below are those of the exact value kept here. *)
Definition pct_of_label (label : string) : Z :=
  match match_pct label with
  | Some ds => parseInt ds
  | None => 50
  end.

Definition GREEN : string := "bg-[#3fb950]".
Definition AMBER : string := "bg-[#d29922]".
Definition RED : string := "bg-[#f85149]".

(** [pct >= 60 ? 'bg-[#3fb950]' : pct >= 35 ? 'bg-[#d29922]' : 'bg-[#f85149]'] *)
Definition color_of_pct (pct : Z) : string :=
  if pct >=? 60 then GREEN else if pct >=? 35 then AMBER else RED.

(** What the component renders: the label text, and the class and the inline
    width of the bar. *)
Record Meter := {
  meter_label : string;
  bar_color : string;
  bar_width : string
}.

Definition ConfidenceMeter (label : string) : Meter :=
  let pct := pct_of_label label in
  let color := color_of_pct pct in
  {| meter_label := label;
     bar_color := color;
     bar_width := number_to_string pct ++ "%" |}.

(** The three buckets, lowest first, read back from the bar's class. *)
Inductive Bucket := Red | Amber | Green.

Definition bucket_rank (b : Bucket) : nat :=
  match b with Red => 0 | Amber => 1 | Green => 2 end.

Definition bucket_of_color (c : string) : option Bucket :=
  if String.eqb c GREEN then Some Green
  else if String.eqb c AMBER then Some Amber
  else if String.eqb c RED then Some Red
  else None.

(** The bucket of a percentage, by the thresholds of the specification:
    red below 35, amber from 35 to 59, green at 60 and above. *)
Definition spec_bucket (pct : Z) : Bucket :=
  if (pct <? 35)%Z then Red else if (pct <=? 59)%Z then Amber else Green.

Definition bucket_of_label (label : string) : option Bucket :=
  bucket_of_color (bar_color (ConfidenceMeter label)).

End ConfidenceMeter.

(** ** app/simulate/page.tsx *)

Module SimulatePage.
Import Champions JsString JsNumber.

Definition DEFAULTS_blue : list string :=
  ["Renekton"; "LeeSin"; "Ahri"; "Jinx"; "Thresh"].
Definition DEFAULTS_red : list string :=
  ["Gnar"; "Viego"; "Syndra"; "Kaisa"; "Nautilus"].

Record Pick := { champion_id : string; role : string }.

Inductive Side := blue_side | red_side.

(** [ROLES.map((r, i) => ({ champion_id: defaults[i], role: r.toLowerCase() }))].
    Both default lists have one entry per role, so [defaults[i]] is always
    defined; the fallback of the lookup is never taken. *)
Definition initial_draft (defaults : list string) : list Pick :=
  imap (fun i r => {| champion_id := default "" (defaults !! i);
                      role := toLowerCase r |}) ROLES.

(** The roles every draft of the page carries, in order. *)
Definition page_roles : list string := toLowerCase <$> ROLES.

(** The state of the page that reaches the request. *)
Record PageState := {
  blueTeam : string;
  redTeam : string;
  blue : list Pick;
  red : list Pick
}.

Definition initial_state : PageState :=
  {| blueTeam := "T1";
     redTeam := "Gen.G";
     blue := initial_draft DEFAULTS_blue;
     red := initial_draft DEFAULTS_red |}.

(** [prev.map((p, i) => i === idx ? { ...p, champion_id: champ } : p)] *)
Definition set_champion (idx : nat) (champ : string) (prev : list Pick) : list Pick :=
  imap (fun i p => if decide (i = idx)
                   then {| champion_id := champ; role := role p |}
                   else p) prev.

Definition updatePick (side : Side) (idx : nat) (champ : string)
    (st : PageState) : PageState :=
  match side with
  | blue_side =>
      {| blueTeam := blueTeam st; redTeam := redTeam st;
         blue := set_champion idx champ (blue st); red := red st |}
  | red_side =>
      {| blueTeam := blueTeam st; redTeam := redTeam st;
         blue := blue st; red := set_champion idx champ (red st) |}
  end.

Definition setBlueTeam (name : string) (st : PageState) : PageState :=
  {| blueTeam := name; redTeam := redTeam st; blue := blue st; red := red st |}.

Definition setRedTeam (name : string) (st : PageState) : PageState :=
  {| blueTeam := blueTeam st; redTeam := name; blue := blue st; red := red st |}.

(** The handlers the page installs: the two team-name inputs and one
    [ChampionInput] per pick, whose [onChange] calls [updatePick]. *)
Inductive Event :=
| EvBlueTeam (name : string)
| EvRedTeam (name : string)
| EvPick (side : Side) (idx : nat) (champ : string).

Definition handle (e : Event) (st : PageState) : PageState :=
  match e with
  | EvBlueTeam name => setBlueTeam name st
  | EvRedTeam name => setRedTeam name st
  | EvPick side idx champ => updatePick side idx champ st
  end.

Inductive reachable : PageState -> Prop :=
| reach_init : reachable initial_state
| reach_step e st : reachable st -> reachable (handle e st).

(** The body [run] posts to [/simulate]. *)
Record MatchRequest := {
  blue_team_id : string;
  red_team_id : string;
  blue_draft : list Pick;
  red_draft : list Pick;
  seed : Z
}.

(** [Math.floor(Math.random() * 100000)], for a draw [rand] of
    [Math.random()]. *)
Definition seed_of_draw (rand : Q) : Z := floor (rand * 100000%Q).

Definition run_request (st : PageState) (rand : Q) : MatchRequest :=
  {| blue_team_id := blueTeam st;
     red_team_id := redTeam st;
     blue_draft := blue st;
     red_draft := red st;
     seed := seed_of_draw rand |}.

End SimulatePage.

(** ** app/coach/page.tsx *)

Module CoachPage.
Import Champions JsString JsNumber.

Local Open Scope Q_scope.

Record GameState := {
  my_hp_pct : Q;
  enemy_hp_pct : Q;
  my_level : Q;
  enemy_level : Q;
  wave_position : string;
  my_position : string;
  game_time : Q;
  my_mana_pct : Q
}.

(** The initial value of [gs]. *)
Definition initial_gs : GameState :=
  {| my_hp_pct := 80; enemy_hp_pct := 75; my_level := 3; enemy_level := 3;
     wave_position := "middle"; my_position := "middle"; game_time := 210;
     my_mana_pct := 70 |}.

(** The numeric keys of [GameState], each bound to a range input. *)
Inductive NumKey :=
| k_my_hp_pct | k_enemy_hp_pct | k_my_mana_pct
| k_my_level | k_enemy_level | k_game_time.

(** The [min] and [max] attributes of the range input of each key. *)
Definition slider_range (k : NumKey) : Z * Z :=
  match k with
  | k_my_hp_pct => (0, 100)%Z
  | k_enemy_hp_pct => (0, 100)%Z
  | k_my_mana_pct => (0, 100)%Z
  | k_my_level => (1, 18)%Z
  | k_enemy_level => (1, 18)%Z
  | k_game_time => (60, 2400)%Z
  end.

(** [updateGs(k, v)]: [{ ...prev, [k]: v }], for a numeric key. *)
Definition updateGs_num (k : NumKey) (v : Q) (prev : GameState) : GameState :=
  match k with
  | k_my_hp_pct =>
      {| my_hp_pct := v; enemy_hp_pct := enemy_hp_pct prev;
         my_level := my_level prev; enemy_level := enemy_level prev;
         wave_position := wave_position prev; my_position := my_position prev;
         game_time := game_time prev; my_mana_pct := my_mana_pct prev |}
  | k_enemy_hp_pct =>
      {| my_hp_pct := my_hp_pct prev; enemy_hp_pct := v;
         my_level := my_level prev; enemy_level := enemy_level prev;
         wave_position := wave_position prev; my_position := my_position prev;
         game_time := game_time prev; my_mana_pct := my_mana_pct prev |}
  | k_my_mana_pct =>
      {| my_hp_pct := my_hp_pct prev; enemy_hp_pct := enemy_hp_pct prev;
         my_level := my_level prev; enemy_level := enemy_level prev;
         wave_position := wave_position prev; my_position := my_position prev;
         game_time := game_time prev; my_mana_pct := v |}
  | k_my_level =>
      {| my_hp_pct := my_hp_pct prev; enemy_hp_pct := enemy_hp_pct prev;
         my_level := v; enemy_level := enemy_level prev;
         wave_position := wave_position prev; my_position := my_position prev;
         game_time := game_time prev; my_mana_pct := my_mana_pct prev |}
  | k_enemy_level =>
      {| my_hp_pct := my_hp_pct prev; enemy_hp_pct := enemy_hp_pct prev;
         my_level := my_level prev; enemy_level := v;
         wave_position := wave_position prev; my_position := my_position prev;
         game_time := game_time prev; my_mana_pct := my_mana_pct prev |}
  | k_game_time =>
      {| my_hp_pct := my_hp_pct prev; enemy_hp_pct := enemy_hp_pct prev;
         my_level := my_level prev; enemy_level := enemy_level prev;
         wave_position := wave_position prev; my_position := my_position prev;
         game_time := v; my_mana_pct := my_mana_pct prev |}
  end.

(** [updateGs('wave_position', v)] and [updateGs('my_position', v)]. *)
Definition updateGs_wave (v : string) (prev : GameState) : GameState :=
  {| my_hp_pct := my_hp_pct prev; enemy_hp_pct := enemy_hp_pct prev;
     my_level := my_level prev; enemy_level := enemy_level prev;
     wave_position := v; my_position := my_position prev;
     game_time := game_time prev; my_mana_pct := my_mana_pct prev |}.

Definition updateGs_position (v : string) (prev : GameState) : GameState :=
  {| my_hp_pct := my_hp_pct prev; enemy_hp_pct := enemy_hp_pct prev;
     my_level := my_level prev; enemy_level := enemy_level prev;
     wave_position := wave_position prev; my_position := v;
     game_time := game_time prev; my_mana_pct := my_mana_pct prev |}.

(** One entry of [PRESETS]: every field but [my_mana_pct]. *)
Record Preset := {
  p_my_level : Q; p_enemy_level : Q;
  p_my_hp_pct : Q; p_enemy_hp_pct : Q;
  p_game_time : Q;
  p_wave_position : string; p_my_position : string
}.

Definition PRESETS : list (string * Preset) :=
  [ ("Level 1 Start",
     {| p_my_level := 1; p_enemy_level := 1; p_my_hp_pct := 100;
        p_enemy_hp_pct := 100; p_game_time := 90;
        p_wave_position := "middle"; p_my_position := "middle" |});
    ("Level 3 Trading",
     {| p_my_level := 3; p_enemy_level := 3; p_my_hp_pct := 80;
        p_enemy_hp_pct := 75; p_game_time := 210;
        p_wave_position := "middle"; p_my_position := "middle" |});
    ("Level 6 All-in",
     {| p_my_level := 6; p_enemy_level := 5; p_my_hp_pct := 85;
        p_enemy_hp_pct := 60; p_game_time := 420;
        p_wave_position := "slow_push_to_them"; p_my_position := "extended" |});
    ("Mid Game",
     {| p_my_level := 11; p_enemy_level := 10; p_my_hp_pct := 70;
        p_enemy_hp_pct := 70; p_game_time := 1200;
        p_wave_position := "middle"; p_my_position := "middle" |}) ].

Fixpoint lookup_preset (name : string) (l : list (string * Preset)) : option Preset :=
  match l with
  | [] => None
  | (n, p) :: l' => if String.eqb n name then Some p else lookup_preset name l'
  end.

(** [const p = PRESETS[name]; if (p) setGs(prev => ({ ...prev, ...p }))] *)
Definition applyPreset (name : string) (prev : GameState) : GameState :=
  match lookup_preset name PRESETS with
  | Some p =>
      {| my_hp_pct := p_my_hp_pct p; enemy_hp_pct := p_enemy_hp_pct p;
         my_level := p_my_level p; enemy_level := p_enemy_level p;
         wave_position := p_wave_position p; my_position := p_my_position p;
         game_time := p_game_time p; my_mana_pct := my_mana_pct prev |}
  | None => prev
  end.

(** The values [gs] can take: a range input only reports integers between
    its [min] and [max], which [Number] turns into numbers. *)
Inductive gs_reachable : GameState -> Prop :=
| gs_init : gs_reachable initial_gs
| gs_slider k (v : Z) prev :
    gs_reachable prev ->
    (fst (slider_range k) <= v <= snd (slider_range k))%Z ->
    gs_reachable (updateGs_num k (inject_Z v) prev)
| gs_wave v prev : gs_reachable prev -> gs_reachable (updateGs_wave v prev)
| gs_position v prev : gs_reachable prev -> gs_reachable (updateGs_position v prev)
| gs_preset name prev : gs_reachable prev -> gs_reachable (applyPreset name prev).

(** The [state] object of [runAnalysis], field by field. The five fields
    that share their name with a field of [GameState] carry the prefix
    [ls_]. *)
Record LaneState := {
  my_champion_id : string;
  my_hp : Q;
  my_hp_max : Q;
  my_mana : Q;
  my_mana_max : Q;
  ls_my_level : Q;
  my_xp_to_next : Q;
  my_q_cd : Q; my_w_cd : Q; my_e_cd : Q; my_r_cd : Q;
  my_flash_cd : Q; my_summ2_cd : Q;
  my_summ2_type : string;
  ls_my_position : string;
  my_gold : Q;
  my_items : list string;
  my_combat_power : Q;
  enemy_champion_id : string;
  enemy_hp : Q;
  enemy_hp_max : Q;
  enemy_mana_est : Q;
  ls_enemy_level : Q;
  enemy_q_cd_est : Q; enemy_w_cd_est : Q; enemy_e_cd_est : Q;
  enemy_r_cd_est : Q;
  enemy_flash_cd_est : Q;
  enemy_position : string;
  enemy_combat_power : Q;
  my_minions : Q; enemy_minions : Q;
  ls_wave_position : string;
  is_cannon_wave : bool;
  enemy_jg_last_seen : Q; enemy_jg_location : string;
  ally_jg_position : string;
  dragon_timer : Q; herald_timer : Q;
  my_tower_hp : Q; enemy_tower_hp : Q;
  ls_game_time : Q;
  phase : string
}.

(** The [state] that [runAnalysis] builds from the page's fields and passes
    to [mctsRecommend]. *)
Definition runAnalysis (myChamp enemyChamp summ2 : string) (gs : GameState) : LaneState :=
  let hpMax := (570 + (my_level gs - 1) * 90)%js in
  let enemyHpMax := (523 + (enemy_level gs - 1) * 85)%js in
  let manaMax := (418 + (my_level gs - 1) * 25)%js in
  {| my_champion_id := myChamp;
     my_hp := ((my_hp_pct gs / 100) * hpMax)%js;
     my_hp_max := hpMax;
     my_mana := ((my_mana_pct gs / 100) * manaMax)%js;
     my_mana_max := manaMax;
     ls_my_level := my_level gs;
     my_xp_to_next := 280;
     my_q_cd := 0; my_w_cd := 0; my_e_cd := 0;
     my_r_cd := if (my_level gs >=? 6)%js then 0 else 80;
     my_flash_cd := 0; my_summ2_cd := 0;
     my_summ2_type := toLowerCase summ2;
     ls_my_position := my_position gs;
     my_gold := (500 + game_time gs * 2)%js;
     my_items := [];
     my_combat_power := (100 + my_level gs * 15)%js;
     enemy_champion_id := enemyChamp;
     enemy_hp := ((enemy_hp_pct gs / 100) * enemyHpMax)%js;
     enemy_hp_max := enemyHpMax;
     enemy_mana_est := 200;
     ls_enemy_level := enemy_level gs;
     enemy_q_cd_est := 0; enemy_w_cd_est := 0; enemy_e_cd_est := 0;
     enemy_r_cd_est := if (enemy_level gs >=? 6)%js then 0 else 80;
     enemy_flash_cd_est := 0;
     enemy_position := "middle";
     enemy_combat_power := (100 + enemy_level gs * 15)%js;
     my_minions := 6; enemy_minions := 6;
     ls_wave_position := wave_position gs;
     is_cannon_wave := false;
     enemy_jg_last_seen := 999; enemy_jg_location := "unknown";
     ally_jg_position := "unknown";
     dragon_timer := 300; herald_timer := 840;
     my_tower_hp := 100; enemy_tower_hp := 100;
     ls_game_time := game_time gs;
     phase := if (game_time gs >=? 1500)%js then "late"
              else if (game_time gs >=? 840)%js then "mid" else "early" |}.

(** The derivation rule of the data model, in the specification's words:
    early if [game_time < 840], mid if [840 <= game_time < 1500], late
    otherwise. *)
Definition spec_phase (t : Q) : string :=
  if (t <? 840)%js then "early"
  else if ((840 <=? t)%js && (t <? 1500)%js)%bool then "mid"
  else "late".

(** The state invariant of the data model on the fields the page fills. *)
Definition lane_state_invariant (s : LaneState) : Prop :=
  0 <= my_hp s <= my_hp_max s /\
  0 <= my_mana s <= my_mana_max s /\
  0 <= enemy_hp s <= enemy_hp_max s /\
  0 <= my_q_cd s /\ 0 <= my_w_cd s /\ 0 <= my_e_cd s /\ 0 <= my_r_cd s /\
  0 <= my_flash_cd s /\ 0 <= my_summ2_cd s /\
  0 <= enemy_q_cd_est s /\ 0 <= enemy_w_cd_est s /\ 0 <= enemy_e_cd_est s /\
  0 <= enemy_r_cd_est s /\ 0 <= enemy_flash_cd_est s.

End CoachPage.
(** ** The engine behind [/mcts/recommend]

    The client reaches the engine only through [lib/api.ts]; its
    implementation is not part of this source tree. *)

Module Engine.

(** *** The lane-coaching search *)

Section MCTS.

Local Set Warnings "-register-all".

(** The parts of the search the specification leaves to its collaborators. *)
Context {State Action Rng : Type}.
(** The fixed finite action set, filtered to the actions legal in a state. *)
Variable legal : State -> list Action.
(** The Outcome Model resolving an action against the Enemy Policy's
    simultaneous response. *)
Variable resolve : State -> Action -> Rng -> State * Rng.
(** A rollout to the horizon, returning the terminal reward. *)
Variable rollout : State -> Rng -> Q * Rng.
(** [UCB1 = avg_reward + C * sqrt (ln parent_visits / child_visits)], from
    the child's total reward and visit count and the parent's visit count. *)
Variable ucb1 : Q -> nat -> nat -> Q.
(** The iteration or wall-clock budget, asked at the top of each outer
    iteration with the number of iterations completed so far. *)
Variable budget_exceeded : nat -> bool.

(** Modelled from the spec: the MCTS engine of section 4.4 is missing from
    the sources. A node is {state, children: mapping action->node,
    visit_count, total_reward, untried_actions}; the parent link, used only
    for backpropagation, is replaced by the return path of the recursion. *)
Inductive Node := mkNode {
  state : State;
  visit_count : nat;
  total_reward : Q;
  untried_actions : list Action;
  children : list (Action * Node)
}.

(** Modelled from the spec: a fresh node for a state, with every legal
    action untried. *)
Definition fresh (s : State) : Node :=
  mkNode s 0 0 (legal s) [].

(** Modelled from the spec: the UCB1 score of a child under its parent. *)
Definition score (parent_visits : nat) (c : Node) : Q :=
  ucb1 (total_reward c) (visit_count c) parent_visits.

(** Modelled from the spec: selection, the index of the child maximizing
    UCB1 (the earliest one among equals). *)
Fixpoint best_from (parent_visits : nat) (cs : list (Action * Node))
    (i best : nat) (best_score : Q) : nat :=
  match cs with
  | [] => best
  | (_, c) :: cs' =>
      let sc := score parent_visits c in
      if Qle_bool sc best_score
      then best_from parent_visits cs' (S i) best best_score
      else best_from parent_visits cs' (S i) i sc
  end.

Definition select_child (parent_visits : nat) (cs : list (Action * Node)) : option nat :=
  match cs with
  | [] => None
  | (_, c) :: cs' => Some (best_from parent_visits cs' 1 0 (score parent_visits c))
  end.

(** Modelled from the spec: the descent into the child at index [k], where
    [visit] runs the rest of the iteration below that child. The first case
    is never taken: selection returns an index of the list. *)
Fixpoint descend (visit : Node -> Node * Q * Rng) (g : Rng)
    (cs : list (Action * Node)) (k : nat) {struct cs}
    : list (Action * Node) * Q * Rng :=
  match cs, k with
  | [], _ => ([], 0%Q, g)
  | (a, c) :: cs0, O =>
      let '(c', r, g') := visit c in ((a, c') :: cs0, r, g')
  | (a, c) :: cs0, S k' =>
      let '(cs1, r, g') := descend visit g cs0 k' in ((a, c) :: cs1, r, g')
  end.

(** Modelled from the spec: one iteration of the loop of section 4.4 below a
    node. Selection descends through the child of highest UCB1 until a node
    with untried actions or no children is reached; expansion turns one
    untried action into a new child, whose state is resolved by the Outcome
    Model; a rollout from the new node gives the reward; backpropagation
    adds the reward and one visit to the new node and to every node on the
    way back to the root (UCB1 divides by a child's visit count, so the new
    node is counted too). A node with no untried action and no child has no
    legal action: the rollout starts from the node itself. The result is the
    updated node, the reward and the stream after the draws. *)
Fixpoint iterate (n : Node) (g : Rng) {struct n} : Node * Q * Rng :=
  match n with
  | mkNode s v t (a :: rest) cs =>
      let '(s', g1) := resolve s a g in
      let '(r, g2) := rollout s' g1 in
      let child := mkNode s' 1 r (legal s') [] in
      (mkNode s (S v) (t + r) rest (cs ++ [(a, child)]), r, g2)
  | mkNode s v t [] cs =>
      match select_child v cs with
      | None =>
          let '(r, g1) := rollout s g in
          (mkNode s (S v) (t + r) [] cs, r, g1)
      | Some k =>
          let '(cs', r, g') := descend (fun c => iterate c g) g cs k in
          (mkNode s (S v) (t + r) [] cs', r, g')
      end
  end.

(** Modelled from the spec: the outer loop, repeated [iterations] times
    unless the budget check at the top of an iteration stops it. The second
    component counts the iterations completed. *)
Fixpoint search (iterations completed : nat) (root : Node) (g : Rng)
    : Node * nat * Rng :=
  match iterations with
  | O => (root, completed, g)
  | S iterations' =>
      if budget_exceeded completed then (root, completed, g)
      else
        let '(root', _, g') := iterate root g in
        search iterations' (S completed) root' g'
  end.

(** Modelled from the spec: the tree a recommendation call builds, from a
    fresh root for the lane state supplied. *)
Definition recommend_tree (s : State) (iterations : nat) (g : Rng) : Node * nat * Rng :=
  search iterations 0 (fresh s) g.




End MCTS.

Arguments Node : clear implicits.

End Engine.
(** * The other pages and components *)

From Stdlib Require Qabs.
From Stdlib Require Import Sorted DecimalZ.

(** ** components/ChampionInput.tsx: the state of the text box *)

Module ChampionBox.
Import Champions JsString ChampionInput.

(** The [value] held by the parent (both pages pass a state variable and
    its setter as [value] and [onChange]), and the component's own [open]
    and [filter]. *)
Record BoxState := {
  value : string;
  open : bool;
  filter : string
}.

Definition initial_box (v : string) : BoxState :=
  {| value := v; open := false; filter := "" |}.

(** [onChange={e => { onChange(e.target.value); setFilter(e.target.value);
      setOpen(true); }}] *)
Definition onInput (text : string) (st : BoxState) : BoxState :=
  {| value := text; open := true; filter := text |}.

(** [onFocus={() => setOpen(true)}] *)
Definition onFocus (st : BoxState) : BoxState :=
  {| value := value st; open := true; filter := filter st |}.

(** [onBlur={() => setTimeout(() => setOpen(false), 150)}], when the timer
    fires. *)
Definition onBlurTimeout (st : BoxState) : BoxState :=
  {| value := value st; open := false; filter := filter st |}.

(** [onMouseDown={() => { onChange(c); setOpen(false); }}] on the button of
    the suggestion [c]. *)
Definition onPick (c : string) (st : BoxState) : BoxState :=
  {| value := c; open := false; filter := filter st |}.

(** The suggestions of a state, and [open && filtered.length > 0]. *)
Definition suggestions (st : BoxState) : list string :=
  filtered (filter st) (value st).

Definition dropdown_shown (st : BoxState) : bool :=
  open st && (0 <? length (suggestions st))%nat.

(** The events of the box: a suggestion can only be picked while its button
    is rendered. *)
Inductive box_step : BoxState -> BoxState -> Prop :=
| box_input text st : box_step st (onInput text st)
| box_focus st : box_step st (onFocus st)
| box_blur st : box_step st (onBlurTimeout st)
| box_pick c st :
    dropdown_shown st = true -> c ∈ suggestions st ->
    box_step st (onPick c st).

End ChampionBox.

(** ** components/Sidebar.tsx *)

Module Sidebar.
Import JsString.

Record NavEntry := { href : string; label : string }.

(** [NAV], without the icons. *)
Definition NAV : list NavEntry :=
  [ {| href := "/"; label := "Home" |};
    {| href := "/coach"; label := "Coach" |};
    {| href := "/simulate"; label := "Simulate" |};
    {| href := "/patches"; label := "Patches" |} ].

(** [pathname === href || (href !== '/' && pathname.startsWith(href))] *)
Definition active (pathname href : string) : bool :=
  String.eqb pathname href ||
  (negb (String.eqb href "/") && startsWith pathname href).

(** The entries drawn as active for a pathname. *)
Definition active_entries (pathname : string) : list NavEntry :=
  List.filter (fun e => active pathname (href e)) NAV.

(** The mobile drawer: the toggle button, and the links and the overlay,
    which close it. *)
Definition toggle (open : bool) : bool := negb open.
Definition close (open : bool) : bool := false.

End Sidebar.

(** ** lib/api.ts *)

Module Api.
Import CoachPage.

(** [process.env.NEXT_PUBLIC_API_URL || 'http://localhost:8111']: an unset
    or empty variable gives the default. *)
Definition API (env : option string) : string :=
  match env with
  | Some (String c s) => String c s
  | _ => "http://localhost:8111"
  end.

(** The address [apiFetch] hands to [fetch]: [`${API}${path}`]. *)
Definition apiFetch_url (env : option string) (path : string) : string :=
  API env ++ path.

(** The paths of the patch endpoints. *)
Definition getPatches_path : string := "/patches".

Definition getPatch_path (version : string) : string :=
  "/patches/" ++ version.

Definition getPatchByRole_path (version role : string) : string :=
  "/patches/" ++ version ++ "/role/" ++ role.

Definition decodePatch_path : string := "/patches/decode".

(** The body of [decodePatch]: [url ? { url } : {}]; [None] is the empty
    object. *)
Definition decodePatch_body (url : option string) : option string :=
  match url with
  | Some (String c s) => Some (String c s)
  | _ => None
  end.

(** The body of [mctsRecommend], the argument of [JSON.stringify]:
    [{ state, iterations, enemy_model: enemyModel }], with the defaults
    [iterations = 1000] and [enemyModel = 'average'] of the parameters. *)
Record RecommendBody := {
  state : LaneState;
  iterations : Q;
  enemy_model : string
}.

Definition mctsRecommend (st : LaneState) (iterations : option Q)
    (enemyModel : option string) : RecommendBody :=
  {| state := st;
     iterations := default 1000%Q iterations;
     enemy_model := default "average" enemyModel |}.

End Api.

(** ** components/RoleTabs.tsx *)

Module RoleTabs.

Record Tab := { key : string; tab_label : string }.

(** [TABS], without the icons. *)
Definition TABS : list Tab :=
  [ {| key := "all"; tab_label := "All" |};
    {| key := "top"; tab_label := "Top" |};
    {| key := "jungle"; tab_label := "Jungle" |};
    {| key := "mid"; tab_label := "Mid" |};
    {| key := "adc"; tab_label := "ADC" |};
    {| key := "support"; tab_label := "Support" |} ].

(** The tabs drawn as selected: [active === t.key]. *)
Definition highlighted (active : string) : list Tab :=
  List.filter (fun t => String.eqb active (key t)) TABS.

End RoleTabs.

(** ** app/patches/page.tsx *)

Module PatchesPage.
Import JsString Api RoleTabs.

(** A change as the page reads it. [None] is a missing (or null) field. *)
Record Change := {
  change_type : option string;
  target_name : option string;
  ability : option string;
  description : option string;
  impact_score : option Q;
  roles_affected : option (list string)
}.

(** An entry of [buffs], [nerfs], [item_changes] or [system_changes] in the
    answer of [getPatchByRole]: the fields of a change the entry may carry,
    and its [target]. *)
Record Entry := {
  target : option string;
  entry : Change
}.

(** [{ ...b, change_type: t, target_name: b.target, description: b.description }] *)
Definition as_change (t : string) (b : Entry) : Change :=
  {| change_type := Some t;
     target_name := target b;
     ability := ability (entry b);
     description := description (entry b);
     impact_score := impact_score (entry b);
     roles_affected := roles_affected (entry b) |}.

(** The answer of [getPatchByRole]; [None] is a missing field. *)
Record RoleAnswer := {
  buffs : option (list Entry);
  nerfs : option (list Entry);
  item_changes : option (list Entry);
  system_changes : option (list Entry);
  answer_tldr : option string
}.

(** [x || []] *)
Definition or_empty {A} (x : option (list A)) : list A := default [] x.

(** The list [all] built in the effect for a role. *)
Definition role_changes (d : RoleAnswer) : list Change :=
  (List.map (as_change "champion_buff") (or_empty (buffs d)) ++
   List.map (as_change "champion_nerf") (or_empty (nerfs d)) ++
   List.map (as_change "item_change") (or_empty (item_changes d)) ++
   List.map (as_change "system_change") (or_empty (system_changes d)))%list.

(** [borderColor]. [type.includes] throws on a missing type: [None]. *)
Definition borderColor (type : option string) : option string :=
  match type with
  | None => None
  | Some t =>
      Some (if includes t "buff" then "border-[#3fb950]"
            else if includes t "nerf" then "border-[#f85149]"
            else if includes t "item" then "border-[#d29922]"
            else "border-[#8b949e]")
  end.

(** [c.change_type?.includes(s)], as a filter predicate: a missing type is
    falsy. *)
Definition type_includes (s : string) (c : Change) : bool :=
  match change_type c with
  | Some t => includes t s
  | None => false
  end.

(** [c.change_type === s] *)
Definition type_is (s : string) (c : Change) : bool :=
  match change_type c with
  | Some t => String.eqb t s
  | None => false
  end.

Definition buffs_of (changes : list Change) : list Change :=
  List.filter (type_includes "buff") changes.
Definition nerfs_of (changes : list Change) : list Change :=
  List.filter (type_includes "nerf") changes.
Definition items_of (changes : list Change) : list Change :=
  List.filter (type_is "item_change") changes.
Definition system_of (changes : list Change) : list Change :=
  List.filter (type_is "system_change") changes.

(** The border classes of the cards, in order; [None] when rendering
    throws. *)
Definition card_borders (changes : list Change) : option (list string) :=
  mapM (fun c => borderColor (change_type c)) changes.

(** The part of the page state the effect reads. *)
Record PageState := {
  selected : string;
  role : string
}.

Definition initial_state : PageState := {| selected := ""; role := "all" |}.

(** The request of the effect on [selected] and [role]. *)
Inductive Request :=
| ReqPatch (version : string)
| ReqPatchByRole (version role : string).

Definition effect_request (st : PageState) : option Request :=
  match selected st with
  | EmptyString => None
  | _ =>
      if String.eqb (role st) "all" then Some (ReqPatch (selected st))
      else Some (ReqPatchByRole (selected st) (role st))
  end.

Definition request_path (r : Request) : string :=
  match r with
  | ReqPatch v => getPatch_path v
  | ReqPatchByRole v r => getPatchByRole_path v r
  end.

(** The handlers that set [selected] and [role]: the patch select, the
    tabs ([onChange(t.key)] for a tab of [TABS]) and a successful decode
    ([setSelected(res.patch_version)]). *)
Inductive step : PageState -> PageState -> Prop :=
| step_select v st : step st {| selected := v; role := role st |}
| step_tab t st : t ∈ TABS -> step st {| selected := selected st; role := key t |}
| step_decoded v st : step st {| selected := v; role := role st |}.

Inductive reachable : PageState -> Prop :=
| reach_init : reachable initial_state
| reach_step st st' : reachable st -> step st st' -> reachable st'.

End PatchesPage.

(** ** More built-ins *)

Module JsMath.
Import JsNumber.

(** [Math.abs] (exact on doubles). *)
Definition abs (x : Q) : Q := Qabs.Qabs x.

(** [Math.max] of two numbers, and of a list of numbers followed by one
    more: [Math.max(...xs, last)]. *)
Definition max (x y : Q) : Q := if Qle_bool x y then y else x.

Definition max_of (xs : list Q) (last : Q) : Q := fold_right max last xs.

(** The remainder [%] on integers: the sign of the dividend. *)
Definition rem (x y : Z) : Z := Z.rem x y.

End JsMath.

Module JsText.

(** The first [n] units of [pad] repeated; [cur] is what is left of the
    current copy. *)
Fixpoint fill (n : nat) (pad cur : string) : string :=
  match n with
  | O => EmptyString
  | S n' =>
      match cur with
      | String c rest => String c (fill n' pad rest)
      | EmptyString =>
          match pad with
          | String c rest => String c (fill n' pad rest)
          | EmptyString => EmptyString
          end
      end
  end.

(** [s.padStart(targetLength, padString)] *)
Definition padStart (s : string) (targetLength : nat) (padString : string) : string :=
  if (targetLength <=? String.length s)%nat then s
  else fill (targetLength - String.length s) padString padString ++ s.

(** [array.filter((_, i) => p(i))] *)
Fixpoint filter_index {A} (p : nat -> bool) (i : nat) (l : list A) : list A :=
  match l with
  | [] => []
  | x :: l' =>
      if p i then x :: filter_index p (S i) l' else filter_index p (S i) l'
  end.

(** [array.sort(compare)]: the stable sort; [a] stays before [b] unless
    [compare(a, b) > 0]. *)
Fixpoint sort_insert {A} (compare : A -> A -> Q) (x : A) (l : list A) : list A :=
  match l with
  | [] => [x]
  | y :: l' =>
      if Qle_bool (compare x y) 0 then x :: y :: l'
      else y :: sort_insert compare x l'
  end.

Definition sort {A} (compare : A -> A -> Q) (l : list A) : list A :=
  fold_right (sort_insert compare) [] l.

End JsText.

(** ** app/simulate/page.tsx: the result view *)

Module SimulateView.
Import JsString JsNumber JsMath JsText.

Local Open Scope Q_scope.

Record Sample := { time : Q; gold_diff : Q }.

(** One report line of the deep dive. *)
Record Report := {
  minute : Q; action : string; reasoning : string;
  level : Q; kda : string; gold : Q; cs : Q
}.

(** The fields of the answer the modelled code reads; [None] is a missing
    field. The keys of [champion_reports] are in the order of
    [Object.keys]. *)
Record SimResult := {
  gold_curve : option (list Sample);
  champion_reports : option (list (string * list Report))
}.

(** One row of the gold chart: the minute label, the width of the bar in
    percent, the side of the bar and the number printed. *)
Record Row := {
  row_minute : Z;
  row_pct : Q;
  row_isBlue : bool;
  row_diff : Q
}.

(** [Math.max(...curve.map(x => Math.abs(x.gold_diff)), 1)] *)
Definition maxDiff (curve : list Sample) : Q :=
  max_of (List.map (fun x => abs (gold_diff x)) curve) 1.

Definition row_of (curve : list Sample) (g : Sample) : Row :=
  {| row_minute := floor (time g / 60)%js;
     row_pct := (abs (gold_diff g) / maxDiff curve * 100)%js;
     row_isBlue := (gold_diff g >=? 0)%js;
     row_diff := gold_diff g |}.

(** [(result.gold_curve || []).filter((_, i) => i % 5 === 0).map(...)] *)
Definition gold_rows (r : SimResult) : list Row :=
  let curve := default [] (gold_curve r) in
  List.map (row_of curve) (filter_index (fun i => (i mod 5 =? 0)%nat) 0 curve).

(** [Object.keys(res.champion_reports || {})] *)
Definition report_keys (r : SimResult) : list string :=
  List.map fst (default [] (champion_reports r)).

(** [result.champion_reports[deepDive]] *)
Fixpoint lookup_reports (k : string) (l : list (string * list Report))
    : option (list Report) :=
  match l with
  | [] => None
  | (k', v) :: l' => if String.eqb k' k then Some v else lookup_reports k l'
  end.

Record ViewState := {
  result : option SimResult;
  deepDive : string
}.

Definition initial_view : ViewState := {| result := None; deepDive := "" |}.

(** The end of [run] on an answer:
    [setResult(res); const keys = Object.keys(res.champion_reports || {});
     if (keys.length) setDeepDive(keys[0]);] *)
Definition run_done (res : SimResult) (st : ViewState) : ViewState :=
  {| result := Some res;
     deepDive := match report_keys res with
                 | k :: _ => k
                 | [] => deepDive st
                 end |}.

(** The deep dive is rendered when
    [result.champion_reports && Object.keys(result.champion_reports).length > 0]. *)
Definition deep_dive_shown (st : ViewState) : bool :=
  match result st with
  | Some r => (0 <? length (report_keys r))%nat
  | None => false
  end.

(** The lines listed: [(result.champion_reports[deepDive] || [])]. *)
Definition deep_dive_lines (st : ViewState) : option (list Report) :=
  match result st with
  | Some r => lookup_reports (deepDive st) (default [] (champion_reports r))
  | None => None
  end.

(** The events of the view: an answer arrives, the answer is [null] (it is
    stored, then reading its reports throws), a request fails (the state
    of the view stays), or an option of the deep-dive select, one per key,
    is chosen while the select is rendered. *)
Inductive view_step : ViewState -> ViewState -> Prop :=
| view_done res st : view_step st (run_done res st)
| view_null st : view_step st {| result := None; deepDive := deepDive st |}
| view_failed st : view_step st st
| view_select k r st :
    result st = Some r -> deep_dive_shown st = true -> k ∈ report_keys r ->
    view_step st {| result := result st; deepDive := k |}.

Inductive view_reachable : ViewState -> Prop :=
| view_init : view_reachable initial_view
| view_next st st' : view_reachable st -> view_step st st' -> view_reachable st'.

End SimulateView.

(** ** app/coach/page.tsx: the wizard *)

Module CoachWizard.
Import Champions JsString JsNumber JsMath JsText CoachPage Api.

Local Open Scope Z_scope.

(** One entry of [action_scores]. *)
Record Score := { avg_score : Q; visit_pct : Q }.

(** The fields of the answer of [mctsRecommend] the page reads. *)
Record MCTSResult := {
  do_this : string;
  why : string;
  watch_for : string;
  plan_changes_if : string;
  confidence : string;
  next_2_min : string;
  action_scores : option (list (string * Score))
}.

(** [Object.entries(result.action_scores)
      .sort(([, a], [, b]) => b.visit_pct - a.visit_pct)] *)
Definition by_visits (x y : string * Score) : Q :=
  (visit_pct y.2 - visit_pct x.2)%js.

(** The order the comparator asks for: [x] has at least the share of [y]. *)
Definition more_visits (x y : string * Score) : Prop :=
  (visit_pct y.2 <= visit_pct x.2)%Q.

Definition sorted_scores (entries : list (string * Score)) : list (string * Score) :=
  sort by_visits entries.

(** The game-time label
    [`${Math.floor(val / 60)}:${String(val % 60).padStart(2, '0')}`], for an
    integral [val] (the value of a range input). *)
Definition clock_label (val : Z) : string :=
  number_to_string (floor (inject_Z val / 60%Q)) ++ ":" ++
  padStart (number_to_string (rem val 60)) 2 "0".

(** The decimal digit [d], as a code unit. *)
Definition digit (d : Z) : ascii := ascii_of_N (48 + Z.to_N d).

(** Minutes, a colon, and the seconds on two digits. *)
Definition two_digit_clock (val : Z) : string :=
  number_to_string (val / 60) ++ ":" ++
  String (digit (val mod 60 / 10)) (String (digit (val mod 60 mod 10)) "").

Record WizardState := {
  step : Z;
  myChamp : string;
  myRole : string;
  enemyChamp : string;
  enemyRole : string;
  summ2 : string;
  enemyModel : string;
  iterations : Q;
  loading : bool;
  result : option MCTSResult;
  gs : GameState
}.

Definition initial_wizard : WizardState :=
  {| step := 0; myChamp := "Ahri"; myRole := "Mid";
     enemyChamp := "Syndra"; enemyRole := "Mid"; summ2 := "Ignite";
     enemyModel := "average"; iterations := 1000%Q; loading := false;
     result := None; gs := initial_gs |}.

Definition set_step (i : Z) (st : WizardState) : WizardState :=
  {| step := i; myChamp := myChamp st; myRole := myRole st;
     enemyChamp := enemyChamp st; enemyRole := enemyRole st;
     summ2 := summ2 st; enemyModel := enemyModel st;
     iterations := iterations st; loading := loading st;
     result := result st; gs := gs st |}.

Definition set_gs (g : GameState) (st : WizardState) : WizardState :=
  {| step := step st; myChamp := myChamp st; myRole := myRole st;
     enemyChamp := enemyChamp st; enemyRole := enemyRole st;
     summ2 := summ2 st; enemyModel := enemyModel st;
     iterations := iterations st; loading := loading st;
     result := result st; gs := g |}.

Definition set_loading (b : bool) (st : WizardState) : WizardState :=
  {| step := step st; myChamp := myChamp st; myRole := myRole st;
     enemyChamp := enemyChamp st; enemyRole := enemyRole st;
     summ2 := summ2 st; enemyModel := enemyModel st;
     iterations := iterations st; loading := b;
     result := result st; gs := gs st |}.

(** The step indicator: [onClick={() => i < 4 && setStep(i)}]. *)
Definition click_indicator (i : Z) (st : WizardState) : WizardState :=
  if (i <? 4)%Z then set_step i st else st.

(** The start of [runAnalysis]: [setLoading(true)], and the body handed to
    [mctsRecommend(state, iterations, enemyModel)]. *)
Definition analysis_request (st : WizardState) : RecommendBody :=
  mctsRecommend (runAnalysis (myChamp st) (enemyChamp st) (summ2 st) (gs st))
                (Some (iterations st)) (Some (enemyModel st)).

(** The end of [runAnalysis] on an answer, [None] being the answer [null]:
    [setResult(res); setStep(4); ... setLoading(false)]; and on a failure:
    [setLoading(false)] after the alert. *)
Definition analysis_done (res : option MCTSResult) (st : WizardState) : WizardState :=
  {| step := 4; myChamp := myChamp st; myRole := myRole st;
     enemyChamp := enemyChamp st; enemyRole := enemyRole st;
     summ2 := summ2 st; enemyModel := enemyModel st;
     iterations := iterations st; loading := false;
     result := res; gs := gs st |}.

Definition analysis_failed (st : WizardState) : WizardState :=
  set_loading false st.

(** The option lists of the page. *)
Definition SUMM2_OPTIONS : list string :=
  List.filter (fun s => negb (String.eqb s "Flash")) SUMMONER_SPELLS.

Definition ENEMY_MODELS : list string := ["average"; "optimal"; "passive"].

Definition PRESET_NAMES : list string := List.map fst PRESETS.

(** Which panel is rendered: [step === 0], ..., [step === 3], and
    [step === 4 && result]. *)
Definition panel_shown (st : WizardState) : bool :=
  (step st =? 0) || (step st =? 1) || (step st =? 2) || (step st =? 3) ||
  ((step st =? 4) && bool_decide (result st <> None)).

(** The events of the page. The step indicator is always rendered, with one
    button per entry of [steps] (indices 0 to 4); every other control
    belongs to the panel of one step, and a [select] or range input only
    reports one of its options or a value of its range (the iterations
    input has [step={100}]). An analysis ends some time after it starts,
    with an answer or a failure. *)
Inductive wizard_step : WizardState -> WizardState -> Prop :=
| w_indicator i st : 0 <= i <= 4 -> wizard_step st (click_indicator i st)
(* step 0 *)
| w_myChamp text st : step st = 0 ->
    wizard_step st
      {| step := step st; myChamp := text; myRole := myRole st;
         enemyChamp := enemyChamp st; enemyRole := enemyRole st;
         summ2 := summ2 st; enemyModel := enemyModel st;
         iterations := iterations st; loading := loading st;
         result := result st; gs := gs st |}
| w_myRole r st : step st = 0 -> r ∈ ROLES ->
    wizard_step st
      {| step := step st; myChamp := myChamp st; myRole := r;
         enemyChamp := enemyChamp st; enemyRole := enemyRole st;
         summ2 := summ2 st; enemyModel := enemyModel st;
         iterations := iterations st; loading := loading st;
         result := result st; gs := gs st |}
| w_summ2 s st : step st = 0 -> s ∈ SUMM2_OPTIONS ->
    wizard_step st
      {| step := step st; myChamp := myChamp st; myRole := myRole st;
         enemyChamp := enemyChamp st; enemyRole := enemyRole st;
         summ2 := s; enemyModel := enemyModel st;
         iterations := iterations st; loading := loading st;
         result := result st; gs := gs st |}
| w_next0 st : step st = 0 -> wizard_step st (set_step 1 st)
(* step 1 *)
| w_enemyChamp text st : step st = 1 ->
    wizard_step st
      {| step := step st; myChamp := myChamp st; myRole := myRole st;
         enemyChamp := text; enemyRole := enemyRole st;
         summ2 := summ2 st; enemyModel := enemyModel st;
         iterations := iterations st; loading := loading st;
         result := result st; gs := gs st |}
| w_enemyRole r st : step st = 1 -> r ∈ ROLES ->
    wizard_step st
      {| step := step st; myChamp := myChamp st; myRole := myRole st;
         enemyChamp := enemyChamp st; enemyRole := r;
         summ2 := summ2 st; enemyModel := enemyModel st;
         iterations := iterations st; loading := loading st;
         result := result st; gs := gs st |}
| w_back1 st : step st = 1 -> wizard_step st (set_step 0 st)
| w_next1 st : step st = 1 -> wizard_step st (set_step 2 st)
(* step 2 *)
| w_preset name st : step st = 2 -> name ∈ PRESET_NAMES ->
    wizard_step st (set_gs (applyPreset name (gs st)) st)
| w_slider k v st : step st = 2 ->
    (slider_range k).1 <= v <= (slider_range k).2 ->
    wizard_step st (set_gs (updateGs_num k (inject_Z v) (gs st)) st)
| w_wave w st : step st = 2 -> w ∈ WAVE_POSITIONS ->
    wizard_step st (set_gs (updateGs_wave w (gs st)) st)
| w_position p st : step st = 2 -> p ∈ POSITIONS ->
    wizard_step st (set_gs (updateGs_position p (gs st)) st)
| w_back2 st : step st = 2 -> wizard_step st (set_step 1 st)
| w_next2 st : step st = 2 -> wizard_step st (set_step 3 st)
(* step 3 *)
| w_enemyModel m st : step st = 3 -> m ∈ ENEMY_MODELS ->
    wizard_step st
      {| step := step st; myChamp := myChamp st; myRole := myRole st;
         enemyChamp := enemyChamp st; enemyRole := enemyRole st;
         summ2 := summ2 st; enemyModel := m;
         iterations := iterations st; loading := loading st;
         result := result st; gs := gs st |}
| w_iterations v st : step st = 3 -> 200 <= v <= 3000 -> (100 | v) ->
    wizard_step st
      {| step := step st; myChamp := myChamp st; myRole := myRole st;
         enemyChamp := enemyChamp st; enemyRole := enemyRole st;
         summ2 := summ2 st; enemyModel := enemyModel st;
         iterations := inject_Z v; loading := loading st;
         result := result st; gs := gs st |}
| w_back3 st : step st = 3 -> wizard_step st (set_step 2 st)
| w_analyze st : step st = 3 -> loading st = false ->
    wizard_step st (set_loading true st)
(* step 4 *)
| w_edit st : step st = 4 -> result st <> None -> wizard_step st (set_step 2 st)
| w_again st : step st = 4 -> result st <> None ->
    wizard_step st (set_loading true st)
(* the end of an analysis *)
| w_done res st : wizard_step st (analysis_done res st)
| w_failed st : wizard_step st (analysis_failed st).

Inductive wizard_reachable : WizardState -> Prop :=
| wizard_init : wizard_reachable initial_wizard
| wizard_next st st' :
    wizard_reachable st -> wizard_step st st' -> wizard_reachable st'.

(** What the controls of the page guarantee about the fields that reach
    the request. *)
Definition wizard_fields_ok (st : WizardState) : Prop :=
  myRole st ∈ ROLES /\ enemyRole st ∈ ROLES /\
  summ2 st ∈ SUMM2_OPTIONS /\ enemyModel st ∈ ENEMY_MODELS /\
  (exists v, iterations st = inject_Z v /\ 200 <= v <= 3000 /\ (100 | v)) /\
  wave_position (gs st) ∈ WAVE_POSITIONS /\ my_position (gs st) ∈ POSITIONS.

End CoachWizard.

(** ** components/ConfidenceMeter.tsx: labels that carry a percentage *)

Module ConfidenceLabels.
Import JsString.

(** The value of a decimal numeral read after [acc], as [parse_digits]
    reads its digits. *)
Fixpoint uint_value (acc : Z) (d : Decimal.uint) : Z :=
  match d with
  | Decimal.Nil => acc
  | Decimal.D0 d' => uint_value (10 * acc + 0) d'
  | Decimal.D1 d' => uint_value (10 * acc + 1) d'
  | Decimal.D2 d' => uint_value (10 * acc + 2) d'
  | Decimal.D3 d' => uint_value (10 * acc + 3) d'
  | Decimal.D4 d' => uint_value (10 * acc + 4) d'
  | Decimal.D5 d' => uint_value (10 * acc + 5) d'
  | Decimal.D6 d' => uint_value (10 * acc + 6) d'
  | Decimal.D7 d' => uint_value (10 * acc + 7) d'
  | Decimal.D8 d' => uint_value (10 * acc + 8) d'
  | Decimal.D9 d' => uint_value (10 * acc + 9) d'
  end.

(** A prefix in which no match of [/(\d+)%/] can start: it has no percent
    sign and does not end in a digit. *)
Fixpoint plain_prefix (pre : string) : bool :=
  match pre with
  | EmptyString => true
  | String c pre' =>
      negb (Ascii.eqb c "%") && plain_prefix pre' &&
      (negb (is_digit c) || negb (String.eqb pre' ""))
  end.

End ConfidenceLabels.


(** * Verified properties *)

(** ** The definitions on sample inputs *)

Section Samples.
Import Champions JsString JsNumber ChampionInput ConfidenceMeter SimulatePage CoachPage.

Example filtered_by_value :
  filtered "" "ah" = ["Ahri"; "Malzahar"; "Nilah"; "TahmKench"; "Taliyah"; "Xayah"].
Proof. reflexivity. Qed.

Example filtered_first_eight :
  filtered "" "" =
  ["Aatrox"; "Ahri"; "Akali"; "Akshan"; "Alistar"; "Amumu"; "Anivia"; "Annie"].
Proof. reflexivity. Qed.

Example filtered_prefers_typed_text : filtered "zzz" "Ahri" = [].
Proof. reflexivity. Qed.

Example match_pct_label : match_pct "HIGH (78%)" = Some "78".
Proof. reflexivity. Qed.

Example match_pct_leftmost : match_pct "12a 5 % 007%3%" = Some "007".
Proof. reflexivity. Qed.

Example meter_high :
  ConfidenceMeter "HIGH (78%)" =
  {| meter_label := "HIGH (78%)"; bar_color := GREEN; bar_width := "78%" |}.
Proof. reflexivity. Qed.

Example initial_blue_draft :
  blue initial_state =
  [ {| champion_id := "Renekton"; role := "top" |};
    {| champion_id := "LeeSin"; role := "jungle" |};
    {| champion_id := "Ahri"; role := "mid" |};
    {| champion_id := "Jinx"; role := "adc" |};
    {| champion_id := "Thresh"; role := "support" |} ].
Proof. reflexivity. Qed.

Example update_third_red_pick :
  red (updatePick red_side 2 "Zed" initial_state) =
  [ {| champion_id := "Gnar"; role := "top" |};
    {| champion_id := "Viego"; role := "jungle" |};
    {| champion_id := "Zed"; role := "mid" |};
    {| champion_id := "Kaisa"; role := "adc" |};
    {| champion_id := "Nautilus"; role := "support" |} ].
Proof. reflexivity. Qed.

(** The default red ADC is spelled differently from the roster's entry. *)
Example default_red_adc_spelling :
  ("Kaisa" ∈ DEFAULTS_red) /\ ("Kaisa" ∉ CHAMPIONS) /\ ("KaiSa" ∈ CHAMPIONS).
Proof. compute_done. Qed.

(** The double nearest to one tenth, and a tie rounded to even. *)
Example round_tenth :
  (round (1 # 10) == 3602879701896397 # 36028797018963968)%Q.
Proof. vm_compute. reflexivity. Qed.

Example round_tie : (round 9007199254740993 == 9007199254740992)%Q.
Proof. vm_compute. reflexivity. Qed.

(** The initial sliders: 80% of 750 hit points, 70% of 468 mana (where the
    double is just below 327.6), 75% of 693 enemy hit points. *)
Example initial_lane_state :
  let s := runAnalysis "Ahri" "Syndra" "Ignite" initial_gs in
  (my_hp s == 600)%Q /\ (my_hp_max s == 750)%Q /\
  (my_mana s == 5763200148150681 # 17592186044416)%Q /\ (my_mana_max s == 468)%Q /\
  (enemy_hp s == 2079 # 4)%Q /\ (enemy_hp_max s == 693)%Q /\
  (my_r_cd s == 80)%Q /\ (my_gold s == 920)%Q /\
  my_summ2_type s = "ignite" /\ phase s = "early".
Proof. vm_compute. repeat split; reflexivity. Qed.

End Samples.

(** ** Strings *)

Section StringFacts.
Import JsString.

Lemma startsWith_spec s t :
  startsWith s t = true <-> exists post, s = t ++ post.
Proof.
  revert s; induction t as [|b t IH]; intros s; simpl.
  - split; [exists s; reflexivity | reflexivity].
  - destruct s as [|a s].
    + split; [discriminate | intros [post H]; discriminate H].
    + rewrite andb_true_iff, IH. split.
      * intros [Hab [post ->]]. apply Ascii.eqb_eq in Hab as ->. by exists post.
      * intros [post H]. injection H as -> ->. split; [apply Ascii.eqb_refl | by exists post].
Qed.

Lemma includes_spec s t :
  includes s t = true <-> exists pre post, s = pre ++ t ++ post.
Proof.
  induction s as [|a s IH].
  - simpl. rewrite orb_false_r, startsWith_spec. split.
    + intros [post H]. by exists "", post.
    + intros [pre [post H]]. destruct pre; [by exists post|discriminate H].
  - cbn [includes]. rewrite orb_true_iff, IH, startsWith_spec. split.
    + intros [[post H]|[pre [post H]]].
      * by exists "", post.
      * exists (String a pre), post. simpl. by rewrite H.
    + intros [[|c pre] [post H]].
      * left. by exists post.
      * right. injection H as _ ->. by exists pre, post.
Qed.

Lemma span_digits_spec s ds rest :
  span_digits s = (ds, rest) ->
  s = ds ++ rest /\ all_digits ds = true /\
  match rest with String c _ => is_digit c = false | EmptyString => True end.
Proof.
  revert ds rest; induction s as [|c s IH]; intros ds rest; simpl.
  - by intros [= <- <-].
  - destruct (is_digit c) eqn:Hc.
    + destruct (span_digits s) as [ds' rest'] eqn:Hs. intros [= <- <-].
      destruct (IH _ _ eq_refl) as (-> & Hd & Hr). simpl. by rewrite Hc.
    + by intros [= <- <-].
Qed.

Lemma span_digits_app ds c post :
  all_digits ds = true -> is_digit c = false ->
  span_digits (ds ++ String c post) = (ds, String c post).
Proof.
  intros Hd Hc. induction ds as [|d ds IH]; simpl in *.
  - by rewrite Hc.
  - apply andb_true_iff in Hd as [-> Hd]. by rewrite IH.
Qed.

Lemma match_pct_here_Some s ds :
  match_pct_here s = Some ds ->
  exists post, s = ds ++ "%" ++ post /\ ds <> "" /\ all_digits ds = true.
Proof.
  unfold match_pct_here. destruct (span_digits s) as [d rest] eqn:Hs.
  apply span_digits_spec in Hs as (-> & Hd & _).
  destruct d as [|d0 d]; [discriminate|]. destruct rest as [|c rest]; [discriminate|].
  destruct (Ascii.eqb c "%") eqn:Hc; [|discriminate].
  apply Ascii.eqb_eq in Hc as ->. intros [= <-]. by exists rest.
Qed.

Lemma match_pct_here_app ds post :
  ds <> "" -> all_digits ds = true ->
  match_pct_here (ds ++ "%" ++ post) = Some ds.
Proof.
  intros Hne Hd. unfold match_pct_here. simpl.
  rewrite span_digits_app by done. by destruct ds.
Qed.

Lemma match_pct_unfold s :
  match_pct s =
  match match_pct_here s with
  | Some ds => Some ds
  | None => match s with EmptyString => None | String _ s' => match_pct s' end
  end.
Proof. by destruct s. Qed.

(** The regular expression finds a match exactly on the labels that hold
    a percentage. *)
Lemma match_pct_Some s ds : match_pct s = Some ds -> has_pct s.
Proof.
  revert ds; induction s as [|c s IH]; intros ds; rewrite match_pct_unfold;
    destruct (match_pct_here _) as [d|] eqn:H.
  - intros _. apply match_pct_here_Some in H as (post & H & ? & ?).
    by exists "", d, post.
  - discriminate.
  - intros _. apply match_pct_here_Some in H as (post & H & ? & ?).
    by exists "", d, post.
  - intros Hm. destruct (IH _ Hm) as (pre & d & post & -> & ? & ?).
    by exists (String c pre), d, post.
Qed.

Lemma match_pct_None s : match_pct s = None <-> ~ has_pct s.
Proof.
  split.
  - intros Hnone (pre & ds & post & -> & Hne & Hd).
    induction pre as [|c pre IH]; rewrite match_pct_unfold in Hnone.
    + change ("" ++ ds ++ "%" ++ post) with (ds ++ "%" ++ post) in Hnone.
      by rewrite match_pct_here_app in Hnone.
    + destruct (match_pct_here _); [discriminate|]. by apply IH.
  - intros Hno. destruct (match_pct s) as [ds|] eqn:H; [|done].
    destruct Hno. by eapply match_pct_Some.
Qed.

End StringFacts.

(** ** Double-precision arithmetic *)

Section NumberFacts.
Import JsNumber.

Lemma pow2_pos e : (0 < pow2 e)%Q.
Proof. apply Qpower_0_lt. reflexivity. Qed.

Lemma pow2_add a b : (pow2 (a + b) == pow2 a * pow2 b)%Q.
Proof. apply Qpower_plus. discriminate. Qed.

Lemma pow2_le a b : a <= b -> (pow2 a <= pow2 b)%Q.
Proof. intros H. apply Qpower_le_compat_l; [done | discriminate]. Qed.

Lemma pow2_lt a b : a < b -> (pow2 a < pow2 b)%Q.
Proof. intros H. apply Qpower_lt_compat_l; [done | reflexivity]. Qed.

Lemma pow2_lt_inv a b : (pow2 a < pow2 b)%Q -> a < b.
Proof. intros H. eapply Qpower_lt_compat_l_inv; [exact H | reflexivity]. Qed.

Lemma pow2_Z e : 0 <= e -> (pow2 e == inject_Z (2 ^ e))%Q.
Proof. intros H. unfold pow2. by rewrite Zpower_Qpower. Qed.

Lemma pow2_sub a b : (pow2 (a - b) == pow2 a / pow2 b)%Q.
Proof. apply Qpower_minus. discriminate. Qed.

Lemma inject_Z_pos z : 0 < z -> (0 < inject_Z z)%Q.
Proof. intros H. unfold Qlt. simpl. lia. Qed.

Lemma binade_rough (x : Q) :
  (0 < x)%Q ->
  let e0 := Z.log2 (Qnum x) - Z.log2 (Zpos (Qden x)) in
  (pow2 (e0 - 1) <= x /\ x < pow2 (e0 + 1))%Q.
Proof.
  intros Hx. destruct x as [n d]. cbn [Qnum Qden].
  assert (Hn : 0 < n) by (unfold Qlt in Hx; simpl in Hx; lia).
  set (a := Z.log2 n). set (b := Z.log2 (Z.pos d)).
  assert (Ha : 0 <= a) by apply Z.log2_nonneg.
  assert (Hb : 0 <= b) by apply Z.log2_nonneg.
  destruct (Z.log2_spec n Hn) as [Ha1 Ha2]. fold a in Ha1, Ha2.
  destruct (Z.log2_spec (Z.pos d) ltac:(lia)) as [Hb1 Hb2]. fold b in Hb1, Hb2.
  assert (Hpa : 0 < 2 ^ a) by (apply Z.pow_pos_nonneg; lia).
  assert (Hpb : 0 < 2 ^ b) by (apply Z.pow_pos_nonneg; lia).
  rewrite <- Z.add_1_r, Z.pow_add_r in Ha2, Hb2 by lia.
  replace (a - b - 1) with (a - (b + 1)) by lia.
  replace (a - b + 1) with (a + 1 - b) by lia.
  rewrite !pow2_sub, !pow2_Z by lia.
  rewrite !Z.pow_add_r by lia. change (2 ^ 1) with 2.
  split.
  - apply Qle_shift_div_r.
    + apply inject_Z_pos. lia.
    + unfold Qle, Qmult, inject_Z. cbn [Qnum Qden]. nia.
  - apply Qlt_shift_div_l.
    + by apply inject_Z_pos.
    + unfold Qlt, Qmult, inject_Z. cbn [Qnum Qden]. nia.
Qed.

Lemma binade_spec (x : Q) :
  (0 < x)%Q -> (pow2 (binade x) <= x /\ x < pow2 (binade x + 1))%Q.
Proof.
  intros Hx. destruct (binade_rough x Hx) as [Hlo Hhi]. unfold binade.
  set (e0 := Z.log2 (Qnum x) - Z.log2 (Z.pos (Qden x))) in *.
  destruct (Qle_bool (pow2 e0) x) eqn:Hb.
  - apply Qle_bool_iff in Hb. by split.
  - split; [done|]. replace (e0 - 1 + 1) with e0 by lia.
    apply Qnot_le_lt. intros Hle. apply Qle_bool_iff in Hle. congruence.
Qed.

Lemma binade_unique (x : Q) k :
  (pow2 k <= x)%Q -> (x < pow2 (k + 1))%Q -> binade x = k.
Proof.
  intros Hlo Hhi.
  assert (Hx : (0 < x)%Q) by (eapply Qlt_le_trans; [apply pow2_pos | exact Hlo]).
  destruct (binade_spec x Hx) as [Hlo' Hhi'].
  assert (H1 : k < binade x + 1).
  { apply pow2_lt_inv. eapply Qle_lt_trans; eassumption. }
  assert (H2 : binade x < k + 1).
  { apply pow2_lt_inv. eapply Qle_lt_trans; eassumption. }
  lia.
Qed.

Lemma rne_bounds x : Qfloor x <= rne x <= Qfloor x + 1.
Proof. unfold rne. destruct (_ ?= _)%Q; [destruct (Z.even _)| |]; lia. Qed.

#[global] Instance rne_proper : Proper (Qeq ==> eq) rne.
Proof.
  intros x y Hxy. unfold rne. rewrite (Qfloor_comp x y Hxy).
  by rewrite Hxy.
Qed.

Lemma rne_Z z : rne (inject_Z z) = z.
Proof.
  unfold rne. rewrite Qfloor_Z.
  assert (H : (inject_Z z - inject_Z z == 0)%Q) by ring.
  rewrite H. reflexivity.
Qed.

Lemma rne_mono x y : (x <= y)%Q -> rne x <= rne y.
Proof.
  intros Hxy. pose proof (Qfloor_resp_le x y Hxy) as Hf.
  destruct (Z.eq_dec (Qfloor x) (Qfloor y)) as [Heq|Hne].
  - unfold rne. rewrite <- Heq.
    assert (Hd : (x - inject_Z (Qfloor x) <= y - inject_Z (Qfloor x))%Q) by lra.
    destruct (Qcompare_spec (x - inject_Z (Qfloor x)) (1 # 2)) as [H1|H1|H1];
    destruct (Qcompare_spec (y - inject_Z (Qfloor x)) (1 # 2)) as [H2|H2|H2];
      try destruct (Z.even _); try lia; exfalso; lra.
  - pose proof (rne_bounds x). pose proof (rne_bounds y). lia.
Qed.

Lemma pow2_nonzero e : ~ (pow2 e == 0)%Q.
Proof. intros H. pose proof (pow2_pos e) as Hp. rewrite H in Hp. by apply Qlt_irrefl in Hp. Qed.

Lemma pow2_split k : (pow2 k == inject_Z (2 ^ 52) * pow2 (k - 52))%Q.
Proof.
  rewrite <- (pow2_Z 52) by lia. rewrite <- pow2_add. by replace (52 + (k - 52)) with k by lia.
Qed.

Lemma pow2_split' k : (pow2 (k + 1) == inject_Z (2 ^ 53) * pow2 (k - 52))%Q.
Proof.
  rewrite <- (pow2_Z 53) by lia. rewrite <- pow2_add. by replace (53 + (k - 52)) with (k + 1) by lia.
Qed.

Lemma scaled_bounds x k :
  (pow2 k <= x)%Q -> (x < pow2 (k + 1))%Q ->
  (inject_Z (2 ^ 52) <= x / pow2 (k - 52) /\ x / pow2 (k - 52) < inject_Z (2 ^ 53))%Q.
Proof.
  intros Hlo Hhi. pose proof (pow2_pos (k - 52)) as Hp. split.
  - apply Qle_shift_div_l; [done|]. by rewrite <- pow2_split.
  - apply Qlt_shift_div_r; [done|]. by rewrite <- pow2_split'.
Qed.

Lemma significand_bounds x :
  (0 < x)%Q -> 2 ^ 52 <= rne (x / pow2 (binade x - 52)) <= 2 ^ 53.
Proof.
  intros Hx. destruct (binade_spec x Hx) as [Hlo Hhi].
  destruct (scaled_bounds x _ Hlo Hhi) as [H1 H2].
  apply rne_mono in H1. apply Qlt_le_weak, rne_mono in H2.
  rewrite rne_Z in H1, H2. lia.
Qed.

Lemma round_pos_range x :
  (0 < x)%Q ->
  (pow2 (binade x) <= round_pos x /\ round_pos x <= pow2 (binade x + 1))%Q.
Proof.
  intros Hx. destruct (significand_bounds x Hx) as [H1 H2]. unfold round_pos.
  pose proof (pow2_pos (binade x - 52)) as Hp.
  rewrite (pow2_split (binade x)), (pow2_split' (binade x)).
  split; (apply Qmult_le_compat_r; [by rewrite <- Zle_Qle | by apply Qlt_le_weak]).
Qed.

Lemma round_pos_pos x : (0 < x)%Q -> (0 < round_pos x)%Q.
Proof.
  intros Hx. eapply Qlt_le_trans; [apply (pow2_pos (binade x))|].
  by apply round_pos_range.
Qed.

Lemma round_pos_mono x y : (0 < x)%Q -> (x <= y)%Q -> (round_pos x <= round_pos y)%Q.
Proof.
  intros Hx Hxy. assert (Hy : (0 < y)%Q) by (by eapply Qlt_le_trans).
  destruct (binade_spec x Hx) as [Hxl Hxh]. destruct (binade_spec y Hy) as [Hyl Hyh].
  assert (Hk : binade x < binade y + 1).
  { apply pow2_lt_inv. eapply Qle_lt_trans; [exact Hxl|]. by eapply Qle_lt_trans. }
  destruct (Z.eq_dec (binade x) (binade y)) as [Heq|Hne].
  - unfold round_pos. rewrite Heq. pose proof (pow2_pos (binade y - 52)) as Hp.
    apply Qmult_le_compat_r; [|by apply Qlt_le_weak].
    rewrite <- Zle_Qle. apply rne_mono.
    apply Qmult_le_compat_r; [done|]. by apply Qlt_le_weak, Qinv_lt_0_compat.
  - eapply Qle_trans; [apply (round_pos_range x Hx)|].
    eapply Qle_trans; [|apply (round_pos_range y Hy)].
    apply pow2_le. lia.
Qed.

Lemma round_pos_proper x y : (0 < x)%Q -> (x == y)%Q -> (round_pos x == round_pos y)%Q.
Proof.
  intros Hx Hxy. destruct (binade_spec x Hx) as [Hlo Hhi].
  assert (Hb : binade y = binade x) by (apply binade_unique; by rewrite <- Hxy).
  unfold round_pos. rewrite Hb. set (e := binade x - 52).
  assert (Hs : rne (x / pow2 e) = rne (y / pow2 e)).
  { apply rne_proper. by rewrite Hxy. }
  by rewrite Hs.
Qed.

Lemma round_pos_idem x : (0 < x)%Q -> (round_pos (round_pos x) == round_pos x)%Q.
Proof.
  intros Hx. destruct (significand_bounds x Hx) as [H1 H2].
  set (k := binade x) in *. set (m := rne (x / pow2 (k - 52))) in *.
  assert (Hr : (round_pos x == inject_Z m * pow2 (k - 52))%Q) by reflexivity.
  pose proof (pow2_pos (k - 52)) as Hp.
  destruct (Z.eq_dec m (2 ^ 53)) as [Hm|Hm].
  - (* the significand overflowed into the next binade *)
    assert (Hr' : (round_pos x == pow2 (k + 1))%Q) by (by rewrite Hr, Hm, pow2_split').
    rewrite (round_pos_proper _ _ (round_pos_pos x Hx) Hr').
    rewrite Hr'. unfold round_pos.
    assert (Hb : binade (pow2 (k + 1)) = k + 1).
    { apply binade_unique; [apply Qle_refl | apply pow2_lt; lia]. }
    rewrite Hb.
    assert (Hs : (pow2 (k + 1) / pow2 (k + 1 - 52) == inject_Z (2 ^ 52))%Q).
    { rewrite (pow2_split (k + 1)). field. apply pow2_nonzero. }
    rewrite Hs, rne_Z. symmetry. apply pow2_split.
  - assert (Hb : binade (round_pos x) = k).
    { apply binade_unique.
      - apply (round_pos_range x Hx).
      - rewrite Hr, pow2_split'. apply Qmult_lt_compat_r; [done|].
        rewrite <- Zlt_Qlt. lia. }
    unfold round_pos at 1. rewrite Hb.
    assert (Hs : (round_pos x / pow2 (k - 52) == inject_Z m)%Q).
    { rewrite Hr. field. apply pow2_nonzero. }
    by rewrite Hs, rne_Z.
Qed.

Lemma round_of_pos x : (0 < x)%Q -> round x = round_pos x.
Proof. intros H. unfold round. destruct (Qcompare_spec x 0); [exfalso; lra | exfalso; lra | done]. Qed.

Lemma round_of_neg x : (x < 0)%Q -> round x = (- round_pos (- x))%Q.
Proof. intros H. unfold round. destruct (Qcompare_spec x 0); [exfalso; lra | done | exfalso; lra]. Qed.

Lemma round_of_zero x : (x == 0)%Q -> round x = 0%Q.
Proof. intros H. unfold round. destruct (Qcompare_spec x 0); [done | exfalso; lra | exfalso; lra]. Qed.

Lemma round_sign x :
  ((0 < x -> 0 < round x) /\ (x == 0 -> round x == 0) /\ (x < 0 -> round x < 0))%Q.
Proof.
  split; [|split]; intros H.
  - rewrite round_of_pos by done. by apply round_pos_pos.
  - by rewrite round_of_zero.
  - rewrite round_of_neg by done.
    assert (Hn : (0 < - x)%Q) by lra. apply round_pos_pos in Hn. lra.
Qed.

Lemma round_nonneg x : (0 <= x)%Q -> (0 <= round x)%Q.
Proof.
  intros H. destruct (Qlt_le_dec 0 x) as [Hx|Hx].
  - apply Qlt_le_weak. by apply round_sign.
  - assert (H0 : (x == 0)%Q) by lra. apply round_sign in H0. lra.
Qed.

(** Rounding never reverses an order. *)
Lemma round_mono x y : (x <= y)%Q -> (round x <= round y)%Q.
Proof.
  intros Hxy.
  destruct (Q_dec x 0) as [[Hx|Hx]|Hx]; destruct (Q_dec y 0) as [[Hy|Hy]|Hy];
    try (exfalso; lra).
  - rewrite !round_of_neg by done.
    assert (H : (round_pos (- y) <= round_pos (- x))%Q)
      by (apply round_pos_mono; lra). lra.
  - pose proof (proj2 (proj2 (round_sign x)) Hx).
    pose proof (proj1 (round_sign y) Hy). lra.
  - pose proof (proj2 (proj2 (round_sign x)) Hx).
    pose proof (proj1 (proj2 (round_sign y)) Hy). lra.
  - rewrite !round_of_pos by done. by apply round_pos_mono.
  - pose proof (proj1 (proj2 (round_sign x)) Hx).
    pose proof (proj1 (round_sign y) Hy). lra.
  - rewrite !round_of_zero by done. lra.
Qed.

#[global] Instance round_proper : Proper (Qeq ==> Qeq) round.
Proof.
  intros x y Hxy. apply Qle_antisym; apply round_mono; lra.
Qed.

Lemma round_opp x : (round (- x) == - round x)%Q.
Proof.
  destruct (Q_dec x 0) as [[Hx|Hx]|Hx].
  - rewrite (round_of_pos (- x)) by lra. rewrite (round_of_neg x) by done. ring.
  - rewrite (round_of_neg (- x)) by lra. rewrite (round_of_pos x) by done.
    apply Qopp_comp. apply round_pos_proper; [lra | ring].
  - rewrite (round_of_zero (- x)) by lra. rewrite (round_of_zero x) by done. reflexivity.
Qed.

(** A rounded value is a double: rounding it again changes nothing. *)
Lemma round_idem x : (round (round x) == round x)%Q.
Proof.
  assert (Hpos : forall y, (0 < y)%Q -> (round (round y) == round y)%Q).
  { intros y Hy. pose proof (proj1 (round_sign y) Hy) as Hr.
    rewrite (round_of_pos _ Hr), (round_of_pos _ Hy). by apply round_pos_idem. }
  destruct (Q_dec x 0) as [[Hx|Hx]|Hx].
  - assert (Hx' : (x == - - x)%Q) by ring.
    rewrite Hx' at 1 2. rewrite (round_opp (- x)), (round_opp (round (- x))).
    rewrite Hpos by lra. rewrite <- round_opp. apply round_proper. ring.
  - by apply Hpos.
  - by rewrite !round_of_zero by (by rewrite ?round_of_zero).
Qed.

Lemma round_representable x : representable (round x).
Proof. apply round_idem. Qed.

(** No double lies strictly between [1 - 2^-53] and 1. *)
Lemma representable_below_one x :
  representable x -> (x < 1)%Q -> (x <= pred_one)%Q.
Proof.
  intros Hrep Hlt. unfold pred_one.
  destruct (Qlt_le_dec 0 x) as [Hx|Hx]; [|lra].
  destruct (binade_spec x Hx) as [Hlo Hhi].
  assert (Hk : binade x < 0).
  { apply pow2_lt_inv. by eapply Qle_lt_trans. }
  destruct (Z.eq_dec (binade x) (-1)) as [Heq|Hne].
  - unfold representable in Hrep. rewrite round_of_pos in Hrep by done.
    unfold round_pos in Hrep. rewrite Heq in Hrep.
    set (m := rne (x / pow2 (-1 - 52))) in *.
    change (pow2 (-1 - 52)) with (1 # 9007199254740992)%Q in Hrep.
    assert (Hm : m < 9007199254740992).
    { rewrite Zlt_Qlt. rewrite <- Hrep in Hlt.
      change (inject_Z 9007199254740992) with (9007199254740992 # 1)%Q. lra. }
    assert (Hm' : m <= 9007199254740991) by lia.
    rewrite Zle_Qle in Hm'. rewrite <- Hrep.
    change (inject_Z 9007199254740991) with (9007199254740991 # 1)%Q in Hm'. lra.
  - assert (Hle : (pow2 (binade x + 1) <= pow2 (-1))%Q) by (apply pow2_le; lia).
    change (pow2 (-1)) with (1 # 2)%Q in Hle. lra.
Qed.

(** The product of the largest double below 1 with 100000 rounds below
    100000. *)
Lemma round_pred_one_100000 :
  (round (pred_one * 100000) < 100000)%Q.
Proof. vm_compute. reflexivity. Qed.

Lemma round_0 : (round 0 == 0)%Q.
Proof. reflexivity. Qed.

Lemma round_1 : (round 1 == 1)%Q.
Proof. vm_compute. reflexivity. Qed.

End NumberFacts.

(** ** Static tables *)

Section StaticTables.
Import Champions JsString.

(** C7. The enumeration tables are the closed sets of the data model: a
    string is a role exactly when it is Top, Jungle, Mid, ADC or Support; a
    lane position exactly when it is under_tower, safe, middle, extended or
    river; a wave position exactly when it is frozen_near_me, pushing_to_me,
    middle, slow_push_to_them or crashed; and the summoner spells are eight
    distinct names, Flash among them. No table repeats a member. *)
Theorem static_tables_closed :
  (forall s, s ∈ ROLES <->
     s = "Top" \/ s = "Jungle" \/ s = "Mid" \/ s = "ADC" \/ s = "Support") /\
  (forall s, s ∈ POSITIONS <->
     s = "under_tower" \/ s = "safe" \/ s = "middle" \/ s = "extended" \/
     s = "river") /\
  (forall s, s ∈ WAVE_POSITIONS <->
     s = "frozen_near_me" \/ s = "pushing_to_me" \/ s = "middle" \/
     s = "slow_push_to_them" \/ s = "crashed") /\
  (forall s, s ∈ SUMMONER_SPELLS <->
     s = "Flash" \/ s = "Ignite" \/ s = "Teleport" \/ s = "Barrier" \/
     s = "Exhaust" \/ s = "Cleanse" \/ s = "Ghost" \/ s = "Heal") /\
  length SUMMONER_SPELLS = 8%nat /\
  NoDup ROLES /\ NoDup POSITIONS /\ NoDup WAVE_POSITIONS /\ NoDup SUMMONER_SPELLS.
Proof.
  repeat split;
    try (unfold ROLES, POSITIONS, WAVE_POSITIONS, SUMMONER_SPELLS;
         rewrite !elem_of_cons, elem_of_nil; tauto);
    try reflexivity; compute_done.
Qed.

End StaticTables.

(** ** The champion text box *)

Section Suggestions.
Import Champions JsString ChampionInput.

Lemma filtered_subset filter value c :
  c ∈ filtered filter value ->
  c ∈ CHAMPIONS /\
  includes (toLowerCase c) (toLowerCase (active_filter filter value)) = true.
Proof.
  unfold filtered. intros Hc. apply subseteq_take in Hc.
  apply list_elem_of_In, filter_In in Hc as [Hc Hinc].
  split; [by apply list_elem_of_In | done].
Qed.

(** C9. Whatever the text typed ([filter]) and the current value of the
    box, the suggestion list has at most eight entries, each entry is a name
    of the roster, and the lower-cased entry contains the lower-cased active
    filter text ([filter], or [value] when [filter] is empty) as a
    substring. *)
Theorem suggestions_bounded_and_matching (filter value : string) :
  (length (filtered filter value) <= 8)%nat /\
  forall c, c ∈ filtered filter value ->
    c ∈ CHAMPIONS /\
    exists pre post,
      toLowerCase c = pre ++ toLowerCase (active_filter filter value) ++ post.
Proof.
  split.
  - unfold filtered. rewrite length_take. lia.
  - intros c Hc. apply filtered_subset in Hc as [Hin Hinc].
    split; [done | by apply includes_spec].
Qed.

End Suggestions.

(** ** The confidence bar *)

Section Confidence.
Import JsString ConfidenceMeter.

Lemma bucket_of_color_of_pct pct :
  bucket_of_color (color_of_pct pct) = Some (spec_bucket pct).
Proof.
  unfold color_of_pct, spec_bucket.
  destruct (Z.geb_spec pct 60), (Z.geb_spec pct 35),
    (Z.ltb_spec pct 35), (Z.leb_spec pct 59); try lia; reflexivity.
Qed.

Lemma spec_bucket_mono p1 p2 :
  p1 <= p2 -> (bucket_rank (spec_bucket p1) <= bucket_rank (spec_bucket p2))%nat.
Proof.
  intros H. unfold spec_bucket.
  destruct (Z.ltb_spec p1 35), (Z.leb_spec p1 59),
    (Z.ltb_spec p2 35), (Z.leb_spec p2 59); simpl; lia.
Qed.

(** C5. The bar's colour class is one of three buckets fixed by the
    percentage read from the label (red below 35, amber from 35 to 59, green
    from 60), and for two labels whose percentages satisfy [p1 <= p2] the
    bucket of the second is not lower than the bucket of the first. *)
Theorem confidence_bucket_monotone (label1 label2 : string) :
  pct_of_label label1 <= pct_of_label label2 ->
  exists b1 b2,
    bucket_of_label label1 = Some b1 /\ b1 = spec_bucket (pct_of_label label1) /\
    bucket_of_label label2 = Some b2 /\ b2 = spec_bucket (pct_of_label label2) /\
    (bucket_rank b1 <= bucket_rank b2)%nat.
Proof.
  intros H. exists (spec_bucket (pct_of_label label1)), (spec_bucket (pct_of_label label2)).
  unfold bucket_of_label, ConfidenceMeter. simpl.
  rewrite !bucket_of_color_of_pct. repeat split. by apply spec_bucket_mono.
Qed.

Lemma confidence_bucket_monotone_witness :
  pct_of_label "LOW (20%)" <= pct_of_label "HIGH (78%)" /\
  exists b1 b2,
    bucket_of_label "LOW (20%)" = Some b1 /\ b1 = Red /\
    bucket_of_label "HIGH (78%)" = Some b2 /\ b2 = Green /\
    (bucket_rank b1 <= bucket_rank b2)%nat.
Proof.
  split; [vm_compute; discriminate |].
  apply (confidence_bucket_monotone "LOW (20%)" "HIGH (78%)").
  vm_compute; discriminate.
Defined.

(** C8. A label that holds no run of digits followed by a percent sign is
    rendered without failure: the percentage falls back to 50, the bar is 50%
    wide and its class is the amber one. *)
Theorem no_percentage_falls_back (label : string) :
  ~ has_pct label ->
  pct_of_label label = 50 /\
  ConfidenceMeter label =
    {| meter_label := label; bar_color := AMBER; bar_width := "50%" |} /\
  bucket_of_label label = Some Amber.
Proof.
  intros H. apply match_pct_None in H.
  assert (Hp : pct_of_label label = 50) by (unfold pct_of_label; by rewrite H).
  unfold bucket_of_label, ConfidenceMeter. rewrite Hp. by repeat split.
Qed.

Lemma no_percentage_falls_back_witness :
  ~ has_pct "HIGH" /\
  pct_of_label "HIGH" = 50 /\
  ConfidenceMeter "HIGH" =
    {| meter_label := "HIGH"; bar_color := AMBER; bar_width := "50%" |} /\
  bucket_of_label "HIGH" = Some Amber.
Proof.
  assert (H : ~ has_pct "HIGH") by (by apply match_pct_None).
  split; [exact H | exact (no_percentage_falls_back "HIGH" H)].
Defined.

End Confidence.

(** ** The simulation page *)

Section Drafts.
Import Champions JsString JsNumber SimulatePage.

Lemma page_roles_distinct : length page_roles = 5%nat /\ NoDup page_roles.
Proof. split; [reflexivity | compute_done]. Qed.

Lemma initial_draft_roles defaults : role <$> initial_draft defaults = page_roles.
Proof. reflexivity. Qed.

Lemma set_champion_lookup idx champ prev i :
  set_champion idx champ prev !! i =
  (fun p => if decide (i = idx)
            then {| champion_id := champ; role := role p |} else p) <$> prev !! i.
Proof. unfold set_champion. by rewrite list_lookup_imap. Qed.

Lemma set_champion_roles idx champ prev :
  role <$> set_champion idx champ prev = role <$> prev.
Proof.
  apply list_eq; intros i.
  rewrite !list_lookup_fmap, set_champion_lookup.
  destruct (prev !! i) as [p|]; [|done]. simpl. by destruct (decide (i = idx)).
Qed.

Lemma set_champion_length idx champ prev :
  length (set_champion idx champ prev) = length prev.
Proof. apply length_imap. Qed.

Lemma set_champion_other idx champ prev i :
  i <> idx -> set_champion idx champ prev !! i = prev !! i.
Proof.
  intros Hne. rewrite set_champion_lookup.
  destruct (prev !! i); [|done]. simpl. by destruct (decide (i = idx)).
Qed.

Lemma handle_roles e st :
  role <$> blue (handle e st) = role <$> blue st /\
  role <$> red (handle e st) = role <$> red st.
Proof.
  destruct e as [name|name|[] idx champ]; simpl;
    by rewrite ?set_champion_roles.
Qed.

Lemma reachable_roles st :
  reachable st -> role <$> blue st = page_roles /\ role <$> red st = page_roles.
Proof.
  induction 1 as [|e st Hst [IHb IHr]].
  - split; apply initial_draft_roles.
  - destruct (handle_roles e st) as [-> ->]. by split.
Qed.

Lemma roles_give_five (l : list Pick) :
  role <$> l = page_roles -> length l = 5%nat /\ NoDup (role <$> l).
Proof.
  intros H. split.
  - rewrite <- (length_fmap role l), H. reflexivity.
  - rewrite H. apply page_roles_distinct.
Qed.

(** C3. Both drafts start with one pick per role of the role table;
    [updatePick] keeps the roles and the number of picks of both drafts and
    leaves every pick but the one at [idx] as it was; hence every request
    the page can send carries, on each side, exactly five picks whose roles
    are pairwise distinct. *)
Theorem request_drafts_valid (st : PageState) (rand : Q) :
  reachable st ->
  let req := run_request st rand in
  (length (blue_draft req) = 5%nat /\ NoDup (role <$> blue_draft req)) /\
  (length (red_draft req) = 5%nat /\ NoDup (role <$> red_draft req)) /\
  (role <$> blue initial_state = toLowerCase <$> ROLES /\
   role <$> red initial_state = toLowerCase <$> ROLES) /\
  forall side idx champ,
    let st' := updatePick side idx champ st in
    role <$> blue st' = role <$> blue st /\
    role <$> red st' = role <$> red st /\
    length (blue st') = length (blue st) /\
    length (red st') = length (red st) /\
    forall i, i <> idx -> blue st' !! i = blue st !! i /\ red st' !! i = red st !! i.
Proof.
  intros Hst. simpl. destruct (reachable_roles st Hst) as [Hb Hr].
  split; [by apply roles_give_five|]. split; [by apply roles_give_five|].
  split; [by split|].
  intros [] idx champ; simpl;
    rewrite ?set_champion_roles, ?set_champion_length; repeat split; try done;
    by apply set_champion_other.
Qed.

Lemma request_drafts_valid_witness :
  let st := handle (EvPick red_side 3 "Caitlyn") initial_state in
  let req := run_request st (1 # 2) in
  (length (blue_draft req) = 5%nat /\ NoDup (role <$> blue_draft req)) /\
  (length (red_draft req) = 5%nat /\ NoDup (role <$> red_draft req)).
Proof.
  intros st req.
  pose proof (request_drafts_valid st (1 # 2)
                (reach_step (EvPick red_side 3 "Caitlyn") _ reach_init)) as H.
  exact (conj (proj1 H) (proj1 (proj2 H))).
Defined.

Lemma seed_of_draw_range rand :
  representable rand -> (0 <= rand)%Q -> (rand < 1)%Q ->
  0 <= seed_of_draw rand < 100000.
Proof.
  intros Hrep H0 H1. unfold seed_of_draw, floor, mul. split.
  - change 0 with (Qfloor 0). apply Qfloor_resp_le, round_nonneg.
    apply Qmult_le_0_compat; [done | discriminate].
  - pose proof (representable_below_one rand Hrep H1) as Hmax.
    assert (Hle : (round (rand * 100000) <= round (pred_one * 100000))%Q).
    { apply round_mono. apply Qmult_le_compat_r; [done | discriminate]. }
    pose proof round_pred_one_100000 as Hlt.
    rewrite Zlt_Qlt. eapply Qle_lt_trans; [apply Qfloor_le|].
    by eapply Qle_lt_trans.
Qed.

(** C10. For a draw of [Math.random()], a double at least 0 and below 1,
    the seed of the request is a natural number below 100000; the value
    100000, which a 64-bit seed may take, is never sent. *)
Theorem seed_below_100000 (st : PageState) (rand : Q) :
  representable rand -> (0 <= rand)%Q -> (rand < 1)%Q ->
  0 <= seed (run_request st rand) < 100000 /\
  exists s, 0 <= s < 2 ^ 63 /\
    forall st' rand',
      representable rand' -> (0 <= rand')%Q -> (rand' < 1)%Q ->
      seed (run_request st' rand') <> s.
Proof.
  intros Hrep H0 H1. split; [by apply seed_of_draw_range|].
  exists 100000. split; [lia|].
  intros st' rand' Hrep' H0' H1'. simpl.
  pose proof (seed_of_draw_range rand' Hrep' H0' H1'). lia.
Qed.

(** The largest draw gives the largest seed. *)
Example largest_seed : seed (run_request initial_state pred_one) = 99999.
Proof. vm_compute. reflexivity. Qed.

Lemma seed_below_100000_witness :
  representable pred_one /\ (0 <= pred_one)%Q /\ (pred_one < 1)%Q /\
  0 <= seed (run_request initial_state pred_one) < 100000.
Proof.
  assert (Hrep : representable pred_one) by (vm_compute; reflexivity).
  assert (H0 : (0 <= pred_one)%Q) by discriminate.
  assert (H1 : (pred_one < 1)%Q) by reflexivity.
  split; [exact Hrep | split; [exact H0 | split; [exact H1 |]]].
  exact (proj1 (seed_below_100000 initial_state pred_one Hrep H0 H1)).
Defined.

End Drafts.

(** ** The coach page *)

Section LaneStates.
Import JsString JsNumber CoachPage.

Local Open Scope Q_scope.

(** C1. Whatever the game time, the [phase] field of the lane state that
    [runAnalysis] sends is the phase the derivation rule gives: early below
    840, mid from 840 to below 1500, late from 1500. *)
Theorem phase_matches_rule (myChamp enemyChamp summ2 : string) (gs : GameState) :
  phase (runAnalysis myChamp enemyChamp summ2 gs) = spec_phase (game_time gs) /\
  ls_game_time (runAnalysis myChamp enemyChamp summ2 gs) = game_time gs.
Proof.
  split; [|reflexivity]. simpl. unfold spec_phase, ge, le, lt.
  set (t := game_time gs).
  destruct (Qle_bool 1500 t) eqn:H1, (Qle_bool 840 t) eqn:H2; simpl; try reflexivity.
  apply Qle_bool_iff in H1.
  assert (H3 : 840 <= t) by (eapply Qle_trans; [|exact H1]; discriminate).
  apply Qle_bool_iff in H3. congruence.
Qed.

(** A share [pct / 100] of a non-negative double stays between 0 and it. *)
Lemma scaled_share_bounds pct max :
  0 <= pct <= 100 -> 0 <= max -> representable max ->
  0 <= ((pct / 100) * max)%js <= max.
Proof.
  intros [Hp0 Hp1] Hm Hrep. unfold mul, div.
  assert (Hq : 0 <= round (pct / 100) <= 1).
  { split.
    - apply round_nonneg. apply Qle_shift_div_l; [reflexivity | lra].
    - rewrite <- round_1. apply round_mono.
      apply Qle_shift_div_r; [reflexivity | lra]. }
  set (q := round (pct / 100)) in *. destruct Hq as [Hq0 Hq1]. split.
  - apply round_nonneg. by apply Qmult_le_0_compat.
  - apply Qle_trans with (round max); [apply round_mono | by apply Qle_lteq; right].
    apply Qle_trans with (1 * max); [by apply Qmult_le_compat_r |].
    rewrite Qmult_1_l. apply Qle_refl.
Qed.

(** The maxima [base + (level - 1) * growth] are non-negative doubles. *)
Lemma level_curve_bounds base growth level :
  0 <= base -> 0 <= growth -> 1 <= level ->
  0 <= (base + (level - 1) * growth)%js /\
  representable (base + (level - 1) * growth)%js.
Proof.
  intros Hb Hg Hl. split; [|apply round_representable].
  unfold add, mul, sub. apply round_nonneg.
  assert (H1 : 0 <= round (level - 1)) by (apply round_nonneg; lra).
  assert (H2 : 0 <= round (round (level - 1) * growth)).
  { apply round_nonneg. by apply Qmult_le_0_compat. }
  lra.
Qed.

Lemma ultimate_cooldown_nonneg level : 0 <= (if (level >=? 6)%js then 0 else 80).
Proof. destruct (level >=? 6)%js; discriminate. Qed.

Lemma runAnalysis_invariant myChamp enemyChamp summ2 gs :
  0 <= my_hp_pct gs <= 100 -> 0 <= enemy_hp_pct gs <= 100 ->
  0 <= my_mana_pct gs <= 100 -> 1 <= my_level gs -> 1 <= enemy_level gs ->
  lane_state_invariant (runAnalysis myChamp enemyChamp summ2 gs).
Proof.
  intros Hh He Hm Hl Hel. unfold lane_state_invariant. cbn [runAnalysis
    my_hp my_hp_max my_mana my_mana_max enemy_hp enemy_hp_max my_q_cd my_w_cd
    my_e_cd my_r_cd my_flash_cd my_summ2_cd enemy_q_cd_est enemy_w_cd_est
    enemy_e_cd_est enemy_r_cd_est enemy_flash_cd_est].
  destruct (level_curve_bounds 570 90 (my_level gs)) as [? ?]; [discriminate..|done|].
  destruct (level_curve_bounds 418 25 (my_level gs)) as [? ?]; [discriminate..|done|].
  destruct (level_curve_bounds 523 85 (enemy_level gs)) as [? ?]; [discriminate..|done|].
  repeat split; try apply Qle_refl; try apply ultimate_cooldown_nonneg;
    by apply scaled_share_bounds.
Qed.

(** C6. For slider values with the three percentages between 0 and 100 and
    both levels at least 1, the lane state built by [runAnalysis] keeps each
    of [my_hp], [my_mana] and [enemy_hp] between 0 and its maximum, and
    every cooldown field at or above 0. *)
Theorem lane_state_within_bounds (myChamp enemyChamp summ2 : string) (gs : GameState) :
  0 <= my_hp_pct gs <= 100 -> 0 <= enemy_hp_pct gs <= 100 ->
  0 <= my_mana_pct gs <= 100 -> 1 <= my_level gs -> 1 <= enemy_level gs ->
  lane_state_invariant (runAnalysis myChamp enemyChamp summ2 gs).
Proof. apply runAnalysis_invariant. Qed.

Lemma lane_state_within_bounds_witness :
  lane_state_invariant (runAnalysis "Ahri" "Syndra" "Ignite" initial_gs).
Proof.
  apply (lane_state_within_bounds "Ahri" "Syndra" "Ignite" initial_gs);
    simpl; try (split; discriminate); discriminate.
Defined.

(** Every value the page's controls can give [gs] lies in the slider
    ranges, so the bounds hold for every state the page can send. *)
Lemma gs_reachable_ranges gs :
  gs_reachable gs ->
  0 <= my_hp_pct gs <= 100 /\ 0 <= enemy_hp_pct gs <= 100 /\
  0 <= my_mana_pct gs <= 100 /\ 1 <= my_level gs <= 18 /\
  1 <= enemy_level gs <= 18 /\ 60 <= game_time gs <= 2400.
Proof.
  induction 1 as [|k v prev Hprev IH Hv|v prev Hprev IH|v prev Hprev IH
                  |name prev Hprev IH].
  - simpl. repeat split; discriminate.
  - destruct Hv as [Hv1 Hv2]. rewrite Zle_Qle in Hv1, Hv2.
    destruct k; simpl in *; tauto.
  - simpl. tauto.
  - simpl. tauto.
  - unfold applyPreset. destruct (lookup_preset name PRESETS) as [p|] eqn:Hp; [|done].
    unfold PRESETS in Hp. cbn [lookup_preset] in Hp.
    repeat (destruct (String.eqb _ name) in Hp;
            [injection Hp as <-; simpl; repeat split; try discriminate; tauto|]).
    discriminate.
Qed.

Lemma reachable_lane_state_invariant myChamp enemyChamp summ2 gs :
  gs_reachable gs ->
  lane_state_invariant (runAnalysis myChamp enemyChamp summ2 gs).
Proof.
  intros H. apply gs_reachable_ranges in H. apply runAnalysis_invariant; tauto.
Qed.

End LaneStates.

(** ** The lane-coaching search *)

Section VisitConservation.
Import Engine.

Context {State Action Rng : Type}.
Variable legal : State -> list Action.
Variable resolve : State -> Action -> Rng -> State * Rng.
Variable rollout : State -> Rng -> Q * Rng.
Variable ucb1 : Q -> nat -> nat -> Q.
Variable budget_exceeded : nat -> bool.

Local Abbreviation Node := (Node State Action).
Local Abbreviation iterate := (iterate legal resolve rollout ucb1).
Local Abbreviation search := (search legal resolve rollout ucb1 budget_exceeded).
Local Abbreviation select_child := (select_child ucb1).
Local Abbreviation best_from := (best_from ucb1).









(** Without a legal action the root never gets a child, and the call has
    no action to recommend. *)
Lemma no_legal_action_no_child (s : State) (iterations : nat) (g : Rng) :
  legal s = [] ->
  children (recommend_tree legal resolve rollout ucb1 budget_exceeded
              s iterations g).1.1 = [].
Proof.
  intros Hlegal. unfold recommend_tree.
  assert (H : forall n completed (root : Node) g0,
             untried_actions root = [] -> children root = [] ->
             children (search n completed root g0).1.1 = []).
  { induction n as [|n IH]; intros completed root g0 Hu Hc; simpl; [done|].
    destruct (budget_exceeded completed); [done|].
    destruct root as [s0 v t u cs]. simpl in Hu, Hc. subst u cs. simpl.
    destruct (rollout s0 g0) as [r g1]. by apply IH. }
  by apply H.
Qed.


End VisitConservation.


(** * Facts about the other pages and components *)

(** ** The champion text box *)

Section ChampionBoxFacts.
Import Champions JsString ChampionInput ChampionBox.

Lemma bool_filter_sublist {A} (p : A -> bool) (l : list A) :
  List.filter p l `sublist_of` l.
Proof.
  induction l as [|x l IH]; simpl; [constructor|].
  destruct (p x); by constructor.
Qed.

Lemma toLowerCase_app s t : toLowerCase (s ++ t) = toLowerCase s ++ toLowerCase t.
Proof. induction s as [|c s IH]; simpl; [done | by rewrite IH]. Qed.

Lemma toLowerCase_empty s : toLowerCase s = "" -> s = "".
Proof. by destruct s. Qed.

Lemma string_app_assoc (a b c : string) : (a ++ b) ++ c = a ++ b ++ c.
Proof. induction a as [|x a IH]; simpl; [done | by rewrite IH]. Qed.

(** The list depends on the two texts only through the lower-cased active
    filter. *)
Lemma filtered_active f v f' v' :
  toLowerCase (active_filter f v) = toLowerCase (active_filter f' v') ->
  filtered f v = filtered f' v'.
Proof. intros H. unfold filtered. by rewrite H. Qed.

Lemma roster_names_found :
  forallb (fun c => bool_decide (c ∈ filtered c "")) CHAMPIONS = true.
Proof. vm_compute. reflexivity. Qed.

Lemma roster_names_nonempty : forallb (fun c => negb (String.eqb c "")) CHAMPIONS = true.
Proof. vm_compute. reflexivity. Qed.

Lemma own_name_found c : c ∈ CHAMPIONS -> c <> "" /\ c ∈ filtered c "".
Proof.
  intros Hc. apply list_elem_of_In in Hc.
  pose proof (proj1 (forallb_forall _ _) roster_names_found c Hc) as H1.
  pose proof (proj1 (forallb_forall _ _) roster_names_nonempty c Hc) as H2.
  cbv beta in H1, H2. apply bool_decide_eq_true in H1. split; [|exact H1].
  intros ->. discriminate H2.
Qed.

(** X1. The suggestions are pairwise distinct and keep the order of the
    roster. *)
Theorem suggestions_distinct_in_roster_order (f v : string) :
  NoDup (filtered f v) /\ filtered f v `sublist_of` CHAMPIONS.
Proof.
  assert (Hs : filtered f v `sublist_of` CHAMPIONS).
  { unfold filtered. etrans; [apply sublist_take | apply bool_filter_sublist]. }
  split; [|done]. apply (sublist_NoDup _ CHAMPIONS); [compute_done | exact Hs].
Qed.

(** X2. A champion of the roster is suggested whenever the text typed is
    its name up to letter case. *)
Theorem exact_name_is_suggested (c typed v : string) :
  c ∈ CHAMPIONS -> toLowerCase typed = toLowerCase c -> c ∈ filtered typed v.
Proof.
  intros Hc Hlow. destruct (own_name_found c Hc) as [Hne Hin].
  rewrite (filtered_active typed v c ""); [exact Hin|].
  destruct typed as [|a typed]; [symmetry in Hlow; by apply toLowerCase_empty in Hlow|].
  destruct c as [|b c]; [done|]. exact Hlow.
Qed.

Lemma exact_name_is_suggested_witness : "KaiSa" ∈ filtered "kaisa" "Jinx".
Proof.
  apply (exact_name_is_suggested "KaiSa" "kaisa" "Jinx"); [compute_done | reflexivity].
Defined.

(** X3. Picking a suggestion closes the list, makes it the value of the box
    and leaves the typed filter as it was; the champion picked is among the
    suggestions of the new state. *)
Theorem picked_stays_suggested (c : string) (st : BoxState) :
  c ∈ suggestions st ->
  let st' := onPick c st in
  value st' = c /\ open st' = false /\ filter st' = filter st /\
  c ∈ suggestions st'.
Proof.
  destruct st as [v o f]. unfold suggestions, onPick.
  cbn [value open filter]. intros Hc.
  split; [reflexivity|]. split; [reflexivity|]. split; [reflexivity|].
  destruct f as [|a f].
  - apply filtered_subset in Hc as [Hc _].
    destruct (own_name_found c Hc) as [Hne Hin].
    rewrite (filtered_active "" c c ""); [exact Hin|].
    destruct c as [|b c]; [done | reflexivity].
  - rewrite (filtered_active (String a f) c (String a f) v); [exact Hc | reflexivity].
Qed.

Lemma picked_stays_suggested_witness :
  let st := onFocus (initial_box "ah") in
  "Nilah" ∈ suggestions st /\ "Nilah" ∈ suggestions (onPick "Nilah" st).
Proof.
  intros st. assert (H : "Nilah" ∈ suggestions st) by compute_done.
  split; [exact H|]. exact (proj2 (proj2 (proj2 (picked_stays_suggested "Nilah" st H)))).
Defined.

Lemma includes_app_l s t u : includes s (t ++ u) = true -> includes s t = true.
Proof.
  rewrite !includes_spec. intros (pre & post & ->).
  exists pre, (u ++ post). by rewrite string_app_assoc.
Qed.

Lemma active_filter_typed typed v : typed <> "" -> active_filter typed v = typed.
Proof. by destruct typed. Qed.

Lemma filtered_typed typed v :
  typed <> "" ->
  filtered typed v =
  take 8 (List.filter (fun c => includes (toLowerCase c) (toLowerCase typed)) CHAMPIONS).
Proof. intros H. unfold filtered. by rewrite active_filter_typed. Qed.

Lemma take_filter_narrow {A} (p q : A -> bool) (l : list A) (n : nat) :
  (forall x, q x = true -> p x = true) ->
  (length (take n (List.filter p l)) < n)%nat ->
  take n (List.filter q l) ⊆ take n (List.filter p l).
Proof.
  intros Hqp Hlen x Hx. rewrite length_take in Hlen.
  rewrite take_ge by lia. apply subseteq_take in Hx.
  apply list_elem_of_In, filter_In in Hx as [Hx Hq].
  apply list_elem_of_In, filter_In. auto.
Qed.

(** X4. Typing more characters narrows the list: when the list of a typed
    text is not cut at eight entries, every suggestion of a longer text is
    one of its entries. *)
Theorem typing_more_narrows (typed more v : string) :
  typed <> "" -> (length (filtered typed v) < 8)%nat ->
  filtered (typed ++ more) v ⊆ filtered typed v.
Proof.
  intros Hne. rewrite (filtered_typed typed v Hne).
  rewrite (filtered_typed (typed ++ more) v) by (by destruct typed).
  apply take_filter_narrow. intros c Hc.
  rewrite toLowerCase_app in Hc. by apply includes_app_l in Hc.
Qed.

Lemma typing_more_narrows_witness : filtered "ahr" "" ⊆ filtered "ah" "".
Proof.
  apply (typing_more_narrows "ah" "r" ""); [discriminate | vm_compute; lia].
Defined.

End ChampionBoxFacts.

(** ** The sidebar *)

Section SidebarFacts.
Import JsString Sidebar.

Lemma active_root pathname : active pathname "/" = true <-> pathname = "/".
Proof.
  unfold active. rewrite String.eqb_refl. simpl. rewrite orb_false_r.
  apply String.eqb_eq.
Qed.

Lemma active_prefix pathname h :
  active pathname h = true -> h <> "/" -> exists rest, pathname = h ++ rest.
Proof.
  unfold active. intros H Hh. apply orb_true_iff in H as [H|H].
  - apply String.eqb_eq in H as ->. exists "". clear Hh.
    induction h as [|c h IH]; simpl; [done | by rewrite <- IH].
  - apply andb_true_iff in H as [_ H]. by apply startsWith_spec.
Qed.

Lemma active_exclusive pathname h1 h2 :
  h1 ∈ href <$> NAV -> h2 ∈ href <$> NAV -> h1 <> h2 ->
  active pathname h1 = true -> active pathname h2 = true -> False.
Proof.
  intros Hh1 Hh2 Hne H1 H2.
  assert (Hcases : forall h, h ∈ href <$> NAV ->
            h = "/" \/ h = "/coach" \/ h = "/simulate" \/ h = "/patches").
  { intros h Hh. simpl in Hh. rewrite !elem_of_cons, elem_of_nil in Hh. tauto. }
  assert (Hroot : forall h, h ∈ href <$> NAV -> h <> "/" ->
            active "/" h = false).
  { intros h Hh Hhne. destruct (Hcases h Hh) as [->|[->|[->| ->]]]; done. }
  destruct (decide (h1 = "/")) as [->|Hr1].
  { apply active_root in H1 as ->. rewrite Hroot in H2; [done..|]. congruence. }
  destruct (decide (h2 = "/")) as [->|Hr2].
  { apply active_root in H2 as ->. rewrite Hroot in H1; done. }
  destruct (active_prefix _ _ H1 Hr1) as [x1 ->].
  destruct (active_prefix _ _ H2 Hr2) as [x2 Heq].
  destruct (Hcases h1 Hh1) as [->|[->|[->| ->]]]; [done|..];
    (destruct (Hcases h2 Hh2) as [->|[->|[->| ->]]]; [done|..]);
    try done; discriminate Heq.
Qed.

(** X5. Whatever the pathname, at most one entry of the navigation is
    drawn as active, and Home is active on the root path only. *)
Theorem at_most_one_active_entry (pathname : string) :
  (length (active_entries pathname) <= 1)%nat /\
  (active pathname "/" = true <-> pathname = "/").
Proof.
  split; [|apply active_root].
  pose proof (active_exclusive pathname) as Hex.
  assert (Hin : forall h, In h ["/"; "/coach"; "/simulate"; "/patches"] ->
            h ∈ href <$> NAV).
  { intros h Hh. by apply list_elem_of_In. }
  unfold active_entries, NAV. cbn [List.filter href].
  destruct (active pathname "/") eqn:H0, (active pathname "/coach") eqn:H1,
    (active pathname "/simulate") eqn:H2, (active pathname "/patches") eqn:H3;
    cbn [length]; try lia; exfalso.
  all: first
    [ by apply (Hex "/" "/coach"); try apply Hin; simpl; auto
    | by apply (Hex "/" "/simulate"); try apply Hin; simpl; auto
    | by apply (Hex "/" "/patches"); try apply Hin; simpl; auto
    | by apply (Hex "/coach" "/simulate"); try apply Hin; simpl; auto
    | by apply (Hex "/coach" "/patches"); try apply Hin; simpl; auto
    | by apply (Hex "/simulate" "/patches"); try apply Hin; simpl; auto ].
Qed.

End SidebarFacts.

(** ** The patch endpoints *)

Section ApiFacts.
Import JsString Api.

Lemma string_app_inv_head (a s t : string) : a ++ s = a ++ t -> s = t.
Proof. induction a as [|c a IH]; simpl; [done|]. intros [= H]. by apply IH. Qed.

Lemma no_slash_cons c s :
  includes (String c s) "/" = false -> c <> "/"%char /\ includes s "/" = false.
Proof.
  cbn [includes startsWith]. intros H. apply orb_false_iff in H as [H1 H2].
  split; [|done]. intros ->. discriminate.
Qed.

Lemma role_suffix_injective v1 r1 v2 r2 :
  includes v1 "/" = false -> includes v2 "/" = false ->
  v1 ++ "/role/" ++ r1 = v2 ++ "/role/" ++ r2 -> v1 = v2 /\ r1 = r2.
Proof.
  revert v2. induction v1 as [|c v1 IH]; intros [|d v2] H1 H2 Heq.
  - simpl in Heq. injection Heq as <-. done.
  - apply no_slash_cons in H2 as [Hd _]. simpl in Heq. injection Heq as <- _. done.
  - apply no_slash_cons in H1 as [Hc _]. simpl in Heq. injection Heq as -> _. done.
  - apply no_slash_cons in H1 as [_ H1]. apply no_slash_cons in H2 as [_ H2].
    simpl in Heq. injection Heq as -> Heq.
    destruct (IH v2 H1 H2 Heq) as [-> ->]. done.
Qed.

(** X6. For versions without a slash, the address of a patch filtered by
    role determines the version and the role, and differs from the address
    of every unfiltered patch. *)
Theorem patch_addresses_unambiguous (env : option string) (v1 r1 v2 r2 : string) :
  includes v1 "/" = false -> includes v2 "/" = false ->
  (apiFetch_url env (getPatchByRole_path v1 r1) =
   apiFetch_url env (getPatchByRole_path v2 r2) -> v1 = v2 /\ r1 = r2) /\
  apiFetch_url env (getPatch_path v1) <> apiFetch_url env (getPatchByRole_path v2 r2).
Proof.
  intros H1 H2. unfold apiFetch_url, getPatchByRole_path, getPatch_path. split.
  - intros Heq. apply string_app_inv_head in Heq.
    apply (string_app_inv_head "/patches/") in Heq.
    by apply role_suffix_injective.
  - intros Heq. apply string_app_inv_head in Heq.
    apply (string_app_inv_head "/patches/") in Heq.
    assert (Hinc : includes v1 "/" = true).
    { apply includes_spec. exists v2, ("role/" ++ r2). by rewrite Heq. }
    congruence.
Qed.

Lemma patch_addresses_unambiguous_witness :
  apiFetch_url None (getPatch_path "14.3") <>
  apiFetch_url None (getPatchByRole_path "14.3" "mid").
Proof.
  exact (proj2 (patch_addresses_unambiguous None "14.3" "x" "14.3" "mid"
                  eq_refl eq_refl)).
Defined.

(** Without the restriction two different pairs share an address. *)
Example patch_address_with_slash :
  getPatchByRole_path "a/role/b" "c" = getPatchByRole_path "a" "b/role/c".
Proof. reflexivity. Qed.

End ApiFacts.

(** ** The patches page *)

Section PatchesFacts.
Import Champions JsString Api RoleTabs PatchesPage.

Lemma filter_all {A} (p : A -> bool) (l : list A) :
  (forall x, In x l -> p x = true) -> List.filter p l = l.
Proof.
  induction l as [|x l IH]; intros H; simpl; [done|].
  rewrite (H x) by (by left). f_equal. apply IH. intros y Hy. apply H. by right.
Qed.

Lemma filter_none {A} (p : A -> bool) (l : list A) :
  (forall x, In x l -> p x = false) -> List.filter p l = [].
Proof.
  induction l as [|x l IH]; intros H; simpl; [done|].
  rewrite (H x) by (by left). apply IH. intros y Hy. apply H. by right.
Qed.

(** The four counters on the changes built from one list of entries. *)
Lemma counters_as_change t (l : list Entry) :
  let cs := List.map (as_change t) l in
  buffs_of cs = (if includes t "buff" then cs else []) /\
  nerfs_of cs = (if includes t "nerf" then cs else []) /\
  items_of cs = (if String.eqb t "item_change" then cs else []) /\
  system_of cs = (if String.eqb t "system_change" then cs else []).
Proof.
  simpl. unfold buffs_of, nerfs_of, items_of, system_of.
  repeat split.
  all: match goal with
       | |- _ = if ?b then _ else _ =>
           destruct b eqn:Hb; [apply filter_all | apply filter_none];
           intros c Hc; apply in_map_iff in Hc as (e & <- & _); exact Hb
       end.
Qed.

Lemma counters_app cs1 cs2 :
  buffs_of (cs1 ++ cs2) = (buffs_of cs1 ++ buffs_of cs2)%list /\
  nerfs_of (cs1 ++ cs2) = (nerfs_of cs1 ++ nerfs_of cs2)%list /\
  items_of (cs1 ++ cs2) = (items_of cs1 ++ items_of cs2)%list /\
  system_of (cs1 ++ cs2) = (system_of cs1 ++ system_of cs2)%list.
Proof. repeat split; apply List.filter_app. Qed.

(** X7. In the view of one role, the four counters of the summary are the
    lengths of the four lists of the answer, and add up to the number of
    cards. *)
Theorem role_view_counts (d : RoleAnswer) :
  let cs := role_changes d in
  length (buffs_of cs) = length (or_empty (buffs d)) /\
  length (nerfs_of cs) = length (or_empty (nerfs d)) /\
  length (items_of cs) = length (or_empty (item_changes d)) /\
  length (system_of cs) = length (or_empty (system_changes d)) /\
  (length (buffs_of cs) + length (nerfs_of cs) + length (items_of cs) +
   length (system_of cs) = length cs)%nat.
Proof.
  cbv zeta. unfold role_changes.
  destruct (counters_as_change "champion_buff" (or_empty (buffs d))) as (B1 & B2 & B3 & B4).
  destruct (counters_as_change "champion_nerf" (or_empty (nerfs d))) as (N1 & N2 & N3 & N4).
  destruct (counters_as_change "item_change" (or_empty (item_changes d))) as (I1 & I2 & I3 & I4).
  destruct (counters_as_change "system_change" (or_empty (system_changes d))) as (S1 & S2 & S3 & S4).
  cbv zeta in *.
  change (includes "champion_buff" "buff") with true in *.
  change (includes "champion_buff" "nerf") with false in *.
  change (includes "champion_nerf" "buff") with false in *.
  change (includes "champion_nerf" "nerf") with true in *.
  change (includes "item_change" "buff") with false in *.
  change (includes "item_change" "nerf") with false in *.
  change (includes "system_change" "buff") with false in *.
  change (includes "system_change" "nerf") with false in *.
  cbn [String.eqb Ascii.eqb Bool.eqb] in *.
  set (bs := List.map (as_change "champion_buff") _) in *.
  set (ns := List.map (as_change "champion_nerf") _) in *.
  set (its := List.map (as_change "item_change") _) in *.
  set (ss := List.map (as_change "system_change") _) in *.
  assert (Hb : buffs_of (bs ++ ns ++ its ++ ss) = bs).
  { rewrite !(proj1 (counters_app _ _)), B1, N1, I1, S1. by rewrite !app_nil_r. }
  assert (Hn : nerfs_of (bs ++ ns ++ its ++ ss) = ns).
  { rewrite !(proj1 (proj2 (counters_app _ _))), B2, N2, I2, S2. by rewrite !app_nil_r. }
  assert (Hi : items_of (bs ++ ns ++ its ++ ss) = its).
  { rewrite !(proj1 (proj2 (proj2 (counters_app _ _)))), B3, N3, I3, S3.
    by rewrite !app_nil_r. }
  assert (Hs : system_of (bs ++ ns ++ its ++ ss) = ss).
  { rewrite !(proj2 (proj2 (proj2 (counters_app _ _)))), B4, N4, I4, S4. done. }
  rewrite Hb, Hn, Hi, Hs. subst bs ns its ss.
  rewrite !length_app, !length_map. repeat split; lia.
Qed.

Lemma card_borders_app cs1 cs2 l1 l2 :
  card_borders cs1 = Some l1 -> card_borders cs2 = Some l2 ->
  card_borders (cs1 ++ cs2) = Some (l1 ++ l2)%list.
Proof.
  unfold card_borders. rewrite !mapM_Some. apply Forall2_app.
Qed.

Lemma card_borders_as_change t (l : list Entry) color :
  borderColor (Some t) = Some color ->
  card_borders (List.map (as_change t) l) = Some (replicate (length l) color).
Proof.
  intros Hc. unfold card_borders. apply mapM_Some.
  induction l as [|e l IH]; simpl; constructor; done.
Qed.

(** X8. In the view of one role the cards always render, and their borders
    are green for the buffs, then red for the nerfs, then amber for the item
    changes, then grey for the system changes. *)
Theorem role_view_borders (d : RoleAnswer) :
  card_borders (role_changes d) =
  Some (replicate (length (or_empty (buffs d))) "border-[#3fb950]" ++
        replicate (length (or_empty (nerfs d))) "border-[#f85149]" ++
        replicate (length (or_empty (item_changes d))) "border-[#d29922]" ++
        replicate (length (or_empty (system_changes d))) "border-[#8b949e]")%list.
Proof.
  unfold role_changes.
  repeat apply card_borders_app; by apply card_borders_as_change.
Qed.

(** X9. In every view, a card counted as a buff has a green border, a card
    counted as an item change an amber one, a card counted as a system
    change a grey one, and a card counted as a nerf but not as a buff a red
    one; a change without a type is counted nowhere, and the cards fail to
    render exactly when some change has no type. *)
Theorem counters_agree_with_borders (changes : list Change) :
  (forall c, In c (buffs_of changes) ->
     borderColor (change_type c) = Some "border-[#3fb950]") /\
  (forall c, In c (nerfs_of changes) -> ~ In c (buffs_of changes) ->
     borderColor (change_type c) = Some "border-[#f85149]") /\
  (forall c, In c (items_of changes) ->
     borderColor (change_type c) = Some "border-[#d29922]") /\
  (forall c, In c (system_of changes) ->
     borderColor (change_type c) = Some "border-[#8b949e]") /\
  (forall c, change_type c = None ->
     ~ In c (buffs_of changes) /\ ~ In c (nerfs_of changes) /\
     ~ In c (items_of changes) /\ ~ In c (system_of changes)) /\
  (card_borders changes = None <-> exists c, In c changes /\ change_type c = None).
Proof.
  unfold buffs_of, nerfs_of, items_of, system_of.
  repeat split.
  - intros c [_ Hc]%filter_In. unfold type_includes in Hc.
    destruct (change_type c) as [t|]; [|done]. simpl. by rewrite Hc.
  - intros c [Hin Hc]%filter_In Hnot. unfold type_includes in Hc.
    destruct (change_type c) as [t|] eqn:Ht; [|done]. simpl.
    destruct (includes t "buff") eqn:Hb; [|by rewrite Hc].
    destruct Hnot. apply filter_In. split; [done|].
    unfold type_includes. by rewrite Ht.
  - intros c [_ Hc]%filter_In. unfold type_is in Hc.
    destruct (change_type c) as [t|]; [|done]. by apply String.eqb_eq in Hc as ->.
  - intros c [_ Hc]%filter_In. unfold type_is in Hc.
    destruct (change_type c) as [t|]; [|done]. by apply String.eqb_eq in Hc as ->.
  - intros [_ Hc]%filter_In. unfold type_includes in Hc. by rewrite H in Hc.
  - intros [_ Hc]%filter_In. unfold type_includes in Hc. by rewrite H in Hc.
  - intros [_ Hc]%filter_In. unfold type_is in Hc. by rewrite H in Hc.
  - intros [_ Hc]%filter_In. unfold type_is in Hc. by rewrite H in Hc.
  - unfold card_borders. rewrite mapM_None, Exists_exists.
    intros (c & Hc & Hb). exists c. split; [by apply list_elem_of_In|].
    by destruct (change_type c).
  - unfold card_borders. rewrite mapM_None, Exists_exists.
    intros (c & Hc & Ht). exists c. split; [by apply list_elem_of_In|].
    by rewrite Ht.
Qed.

Lemma counters_agree_with_borders_witness :
  let c := {| change_type := Some "champion_buff"; target_name := Some "Ahri";
              ability := None; description := None; impact_score := None;
              roles_affected := None |} in
  borderColor (change_type c) = Some "border-[#3fb950]".
Proof.
  intros c. apply (proj1 (counters_agree_with_borders [c]) c). by left.
Defined.

Lemma tabs_keys : key <$> TABS = "all" :: (toLowerCase <$> ROLES).
Proof. reflexivity. Qed.

Lemma reachable_role st : reachable st -> role st ∈ key <$> TABS.
Proof.
  induction 1 as [|st st' Hst IH Hstep]; [compute_done|].
  destruct Hstep as [v st|t st Ht|v st]; cbn [role]; try done.
  by apply list_elem_of_fmap_2.
Qed.

(** X10. The tab state of the patches page is always a key of [TABS], so
    exactly one tab is drawn as selected. The effect on [selected] and
    [role], which loads the changes of a patch, requests nothing exactly
    when no patch is selected, and it requests by role only for the
    selected, non-empty version and for the lower-cased name of a role of
    the roster table, never for [all]. The list of patches and the decode
    request are fetched by other code and are not covered. *)
Theorem patches_tabs_and_requests (st : PageState) :
  reachable st ->
  role st ∈ key <$> TABS /\
  length (highlighted (role st)) = 1%nat /\
  (effect_request st = None <-> selected st = "") /\
  forall v r, effect_request st = Some (ReqPatchByRole v r) ->
    v = selected st /\ v <> "" /\ r ∈ toLowerCase <$> ROLES.
Proof.
  intros Hst. pose proof (reachable_role st Hst) as Hrole.
  split; [done|]. split.
  { rewrite tabs_keys in Hrole. simpl in Hrole.
    rewrite !elem_of_cons, elem_of_nil in Hrole.
    destruct Hrole as [->|[->|[->|[->|[->|[->|[]]]]]]]; reflexivity. }
  split.
  { unfold effect_request. destruct (selected st); [done|].
    destruct (String.eqb (role st) "all"); split; done. }
  intros v r Hreq. unfold effect_request in Hreq.
  destruct (selected st) as [|a s] eqn:Hsel; [done|].
  destruct (String.eqb (role st) "all") eqn:Hall; [done|].
  injection Hreq as <- <-. split; [done|]. split; [done|].
  rewrite tabs_keys in Hrole. apply elem_of_cons in Hrole as [Heq|Hin]; [|done].
  rewrite Heq in Hall. discriminate.
Qed.

Lemma patches_tabs_and_requests_witness :
  let st := {| selected := "14.3"; role := "mid" |} in
  reachable st /\ effect_request st = Some (ReqPatchByRole "14.3" "mid") /\
  length (highlighted (role st)) = 1%nat.
Proof.
  intros st.
  assert (H : reachable st).
  { apply (reach_step {| selected := "14.3"; role := "all" |}).
    - apply (reach_step initial_state); [constructor | apply (step_select "14.3")].
    - apply (step_tab {| key := "mid"; tab_label := "Mid" |}).
      apply list_elem_of_In. simpl. auto 10. }
  split; [exact H|]. split; [reflexivity|].
  exact (proj1 (proj2 (patches_tabs_and_requests st H))).
Defined.

End PatchesFacts.

(** ** The result view of the simulation page *)

Section SimulateViewFacts.
Import JsString JsNumber JsMath JsText SimulateView.

Local Open Scope Q_scope.

Lemma max_ge_l x y : x <= max x y.
Proof.
  unfold max. destruct (Qle_bool x y) eqn:H; [by apply Qle_bool_iff | apply Qle_refl].
Qed.

Lemma max_ge_r x y : y <= max x y.
Proof.
  unfold max. destruct (Qle_bool x y) eqn:H; [apply Qle_refl|].
  apply Qlt_le_weak, Qnot_le_lt. intros Hle. apply Qle_bool_iff in Hle. congruence.
Qed.

Lemma max_of_ge_last xs last : last <= max_of xs last.
Proof.
  induction xs as [|x xs IH]; simpl; [apply Qle_refl|].
  eapply Qle_trans; [exact IH | apply max_ge_r].
Qed.

Lemma max_of_ge_elem xs last x : In x xs -> x <= max_of xs last.
Proof.
  induction xs as [|y xs IH]; simpl; [done|]. intros [->|Hx].
  - apply max_ge_l.
  - eapply Qle_trans; [by apply IH | apply max_ge_r].
Qed.

Lemma maxDiff_ge_1 curve : 1 <= maxDiff curve.
Proof. apply max_of_ge_last. Qed.

Lemma maxDiff_ge_abs curve g : In g curve -> abs (gold_diff g) <= maxDiff curve.
Proof.
  intros Hg. apply max_of_ge_elem. apply in_map_iff. by exists g.
Qed.

Lemma filter_index_In {A} (p : nat -> bool) i (l : list A) x :
  In x (filter_index p i l) -> In x l.
Proof.
  revert i. induction l as [|y l IH]; intros i; simpl; [done|].
  destruct (p i); simpl; intros H; [destruct H as [->|H]|]; eauto.
Qed.

Lemma round_100 : round 100 == 100.
Proof. vm_compute. reflexivity. Qed.

(** The width of a bar, for a magnitude [a] and a largest magnitude [m]. *)
Lemma bar_width_bounds a m :
  0 <= a -> a <= m -> 1 <= m -> 0 <= (a / m * 100)%js <= 100.
Proof.
  intros Ha Ham Hm. unfold mul, div.
  assert (Hm0 : 0 < m) by lra.
  assert (Hq : 0 <= round (a / m) <= 1).
  { split.
    - apply round_nonneg. apply Qle_shift_div_l; [done | lra].
    - rewrite <- round_1. apply round_mono. apply Qle_shift_div_r; [done | lra]. }
  destruct Hq as [Hq0 Hq1]. split.
  - apply round_nonneg. lra.
  - eapply Qle_trans; [apply round_mono | apply Qle_lteq; right; apply round_100]. lra.
Qed.

(** X11. Every bar of the gold chart is between 0% and 100% wide, whatever
    the gold curve of the answer. *)
Theorem gold_bars_within_chart (r : SimResult) (row : Row) :
  In row (gold_rows r) -> 0 <= row_pct row <= 100.
Proof.
  unfold gold_rows. set (curve := default [] (gold_curve r)).
  intros Hrow. apply in_map_iff in Hrow as (g & <- & Hg).
  apply filter_index_In in Hg. cbn [row_of row_pct].
  apply bar_width_bounds.
  - apply Qabs.Qabs_nonneg.
  - by apply maxDiff_ge_abs.
  - apply maxDiff_ge_1.
Qed.

Lemma gold_bars_within_chart_witness :
  let r := {| gold_curve := Some [ {| time := 0; gold_diff := -(250) |};
                                   {| time := 60; gold_diff := 1000 |} ];
              champion_reports := None |} in
  let row := row_of (default [] (gold_curve r)) {| time := 0; gold_diff := -(250) |} in
  In row (gold_rows r) /\ row_pct row == 25 /\ 0 <= row_pct row <= 100.
Proof.
  intros r row.
  assert (H : In row (gold_rows r)) by (left; reflexivity).
  split; [exact H|]. split; [vm_compute; reflexivity|].
  exact (gold_bars_within_chart r row H).
Defined.

Lemma filter_index_fifth {A} (l : list A) m k :
  filter_index (fun i => (i mod 5 =? 0)%nat) (5 * m) l !! k = l !! (5 * k)%nat.
Proof.
  assert (Hp : forall m j, (j < 5)%nat ->
            (((5 * m + j) mod 5 =? 0) = (j =? 0))%nat).
  { intros m' j Hj. rewrite Nat.add_comm, Nat.mul_comm, Nat.Div0.mod_add.
    by rewrite Nat.mod_small. }
  revert m l. induction k as [|k IH]; intros m l.
  - destruct l as [|a l]; [done|]. cbn [filter_index].
    replace (5 * m)%nat with (5 * m + 0)%nat by lia. by rewrite Hp by lia.
  - replace (5 * S k)%nat with (S (S (S (S (S (5 * k)))))) by lia.
    destruct l as [|a [|b [|c [|d [|e l]]]]]; cbn [filter_index];
      replace (5 * m)%nat with (5 * m + 0)%nat by lia;
      replace (S (5 * m + 0)) with (5 * m + 1)%nat by lia;
      replace (S (5 * m + 1)) with (5 * m + 2)%nat by lia;
      replace (S (5 * m + 2)) with (5 * m + 3)%nat by lia;
      replace (S (5 * m + 3)) with (5 * m + 4)%nat by lia;
      rewrite ?Hp by lia; cbn [Nat.eqb]; try done.
    replace (S (5 * m + 4)) with (5 * S m)%nat by lia.
    cbn [lookup list_lookup]. apply IH.
Qed.

Lemma filter_index_fifth_length {A} (l : list A) m :
  length (filter_index (fun i => (i mod 5 =? 0)%nat) (5 * m) l)
  = ((length l + 4) / 5)%nat.
Proof.
  assert (Hp : forall m j, (j < 5)%nat ->
            (((5 * m + j) mod 5 =? 0) = (j =? 0))%nat).
  { intros m' j Hj. rewrite Nat.add_comm, Nat.mul_comm, Nat.Div0.mod_add.
    by rewrite Nat.mod_small. }
  remember (length l) as n eqn:Hn. revert m l Hn.
  induction n as [n IH] using lt_wf_ind. intros m l Hn.
  destruct l as [|a [|b [|c [|d [|e l]]]]]; cbn [filter_index];
    replace (5 * m)%nat with (5 * m + 0)%nat by lia;
    replace (S (5 * m + 0)) with (5 * m + 1)%nat by lia;
    replace (S (5 * m + 1)) with (5 * m + 2)%nat by lia;
    replace (S (5 * m + 2)) with (5 * m + 3)%nat by lia;
    replace (S (5 * m + 3)) with (5 * m + 4)%nat by lia;
    rewrite ?Hp by lia; cbn [Nat.eqb]; try (subst n; reflexivity).
  replace (S (5 * m + 4)) with (5 * S m)%nat by lia.
  cbn [length] in *. rewrite (IH (length l)) by (done || lia).
  subst n. replace (S (S (S (S (S (length l))))) + 4)%nat
    with (length l + 4 + 1 * 5)%nat by lia.
  rewrite Nat.div_add by done. lia.
Qed.

(** X12. The gold chart shows every fifth sample of the curve, in order:
    its row number k is built from sample number 5k, counting from 0, and
    a curve of n samples gives n / 5 rows, rounded up. *)
Theorem gold_chart_every_fifth_sample (r : SimResult) :
  let curve := default [] (gold_curve r) in
  (forall k, gold_rows r !! k = row_of curve <$> curve !! (5 * k)%nat) /\
  length (gold_rows r) = ((length curve + 4) / 5)%nat.
Proof.
  intros curve. unfold gold_rows. fold curve. split.
  - intros k. change (List.map (row_of curve)) with (fmap (M:=list) (row_of curve)).
    rewrite list_lookup_fmap. f_equal. apply (filter_index_fifth curve 0).
  - rewrite length_map. apply (filter_index_fifth_length curve 0).
Qed.

Lemma max_of_le xs last b :
  (forall x, In x xs -> x <= b) -> last <= b -> max_of xs last <= b.
Proof.
  induction xs as [|y xs IH]; simpl; intros Hxs Hl; [done|].
  unfold max. destruct (Qle_bool y _); [apply IH|]; auto.
Qed.

(** X13. Within one chart the bars are ordered like the magnitudes of the
    gold difference, and a sample whose magnitude is the largest of the
    curve, and at least 1, gets a bar of exactly 100%. *)
Theorem gold_bars_ordered_and_full (curve : list Sample) :
  (forall g1 g2, abs (gold_diff g1) <= abs (gold_diff g2) ->
     row_pct (row_of curve g1) <= row_pct (row_of curve g2)) /\
  (forall g, In g curve -> 1 <= abs (gold_diff g) ->
     (forall g', In g' curve -> abs (gold_diff g') <= abs (gold_diff g)) ->
     row_pct (row_of curve g) == 100).
Proof.
  pose proof (maxDiff_ge_1 curve) as Hm. split.
  - intros g1 g2 H. cbn [row_of row_pct]. unfold mul, div.
    apply round_mono. apply Qmult_le_compat_r; [|done].
    apply round_mono. apply Qmult_le_compat_r; [done|].
    apply Qinv_le_0_compat. lra.
  - intros g Hg H1 Hmax. cbn [row_of row_pct]. unfold mul, div.
    assert (Heq : maxDiff curve == abs (gold_diff g)).
    { apply Qle_antisym; [|by apply maxDiff_ge_abs].
      apply max_of_le; [|done]. intros x Hx.
      apply in_map_iff in Hx as (g' & <- & Hg'). by apply Hmax. }
    assert (Hd : abs (gold_diff g) / maxDiff curve == 1).
    { rewrite Heq. unfold Qdiv. apply Qmult_inv_r. lra. }
    rewrite Hd, round_1. rewrite (Qmult_1_l 100). apply round_100.
Qed.

Lemma gold_bars_ordered_and_full_witness :
  let lead := {| time := 300; gold_diff := -(1200) |} in
  let curve := [ {| time := 0; gold_diff := 300 |}; lead ] in
  row_pct (row_of curve lead) == 100.
Proof.
  intros lead curve.
  apply (proj2 (gold_bars_ordered_and_full curve) lead).
  - right; left; reflexivity.
  - vm_compute. discriminate.
  - intros g' [<-|[<-|[]]]; vm_compute; discriminate.
Defined.

End SimulateViewFacts.

Section DeepDiveFacts.
Import JsString JsNumber JsMath JsText SimulateView.

Lemma lookup_reports_key k l :
  In k (List.map fst l) -> lookup_reports k l <> None.
Proof.
  induction l as [|[k' v] l IH]; simpl; [done|].
  destruct (String.eqb k' k) eqn:E; [done|].
  intros [->|H]; [by rewrite String.eqb_refl in E | by apply IH].
Qed.

Lemma view_reachable_deepDive st :
  view_reachable st ->
  forall r, result st = Some r -> report_keys r <> [] ->
            In (deepDive st) (report_keys r).
Proof.
  induction 1 as [|st st' Hr IH Hstep]; [done|].
  destruct Hstep as [res st| st | st | k r0 st Hres Hshown Hk]; cbn [result deepDive run_done].
  - intros r [= <-] Hne. destruct (report_keys res) as [|k ks]; [done | by left].
  - done.
  - exact IH.
  - intros r Hr' _. rewrite Hres in Hr'. injection Hr' as <-.
    by apply list_elem_of_In.
Qed.

(** X14. Whenever the champion deep dive is on screen, the champion
    selected in it is one of the champions of the current answer, so its
    report lines are found and the empty fallback is not used. *)
Theorem deep_dive_selection_is_a_report (st : ViewState) :
  view_reachable st -> deep_dive_shown st = true ->
  exists r, result st = Some r /\ In (deepDive st) (report_keys r) /\
            deep_dive_lines st <> None.
Proof.
  intros Hreach Hshown. unfold deep_dive_shown, deep_dive_lines in *.
  destruct (result st) as [r|] eqn:Hres; [|done].
  exists r. split; [done|].
  assert (Hin : In (deepDive st) (report_keys r)).
  { apply (view_reachable_deepDive st Hreach r Hres).
    destruct (report_keys r); [done | discriminate]. }
  split; [exact Hin|]. by apply lookup_reports_key.
Qed.

Lemma deep_dive_selection_is_a_report_witness :
  let res := {| gold_curve := None;
                champion_reports := Some [("Ahri", []); ("Jinx", [])] |} in
  let st := {| result := Some res; deepDive := "Jinx" |} in
  view_reachable st /\ deep_dive_lines st <> None.
Proof.
  intros res st.
  assert (Hr : view_reachable st).
  { eapply view_next; [eapply view_next; [apply view_init | apply (view_done res)]|].
    apply (view_select "Jinx" res (run_done res initial_view)); [done | done |].
    apply list_elem_of_In. right; left; reflexivity. }
  split; [exact Hr|].
  destruct (deep_dive_selection_is_a_report st Hr eq_refl) as (r & _ & _ & H).
  exact H.
Defined.

End DeepDiveFacts.

(** ** The wizard of the coach page *)

Section CoachWizardFacts.
Import Champions JsString JsNumber JsMath JsText CoachPage Api CoachWizard.

Lemma wizard_step_range st st' :
  wizard_step st st' -> 0 <= step st <= 4 -> 0 <= step st' <= 4.
Proof.
  intros Hstep Hr. destruct Hstep; cbn [step set_step set_gs set_loading
    analysis_done analysis_failed]; try lia.
  unfold click_indicator. destruct (i <? 4)%Z; cbn [step set_step]; lia.
Qed.

Lemma wizard_reachable_range st : wizard_reachable st -> 0 <= step st <= 4.
Proof.
  induction 1 as [|st st' _ IH Hstep]; [simpl; lia|].
  by apply (wizard_step_range st).
Qed.

(** X15. The wizard never leaves its five steps, and the results step is
    entered in one way only: by the answer of an analysis. The step
    indicator cannot jump to it. *)
Theorem wizard_steps_and_results_entry :
  (forall st, wizard_reachable st -> 0 <= step st <= 4) /\
  (forall st st', wizard_step st st' -> step st <> 4 -> step st' = 4 ->
     exists res, st' = analysis_done res st).
Proof.
  split; [apply wizard_reachable_range|].
  intros st st' Hstep Hne H4.
  destruct Hstep; cbn [step set_step set_gs set_loading analysis_failed] in H4;
    try congruence; try (by eexists).
  unfold click_indicator in H4. destruct (i <? 4)%Z eqn:Hi; cbn [step set_step] in H4; lia.
Qed.

Lemma wizard_steps_and_results_entry_witness :
  let st := set_loading true (set_step 3 initial_wizard) in
  exists res, analysis_done None st = analysis_done res st.
Proof.
  intros st.
  apply (proj2 wizard_steps_and_results_entry st (analysis_done None st)).
  - apply w_done.
  - simpl. lia.
  - reflexivity.
Defined.

Lemma wizard_gs_step st st' :
  wizard_step st st' -> gs_reachable (gs st) -> gs_reachable (gs st').
Proof.
  intros Hstep Hg. destruct Hstep; cbn [gs set_step set_gs set_loading
    analysis_done analysis_failed]; try done.
  - unfold click_indicator. by destruct (i <? 4)%Z.
  - by apply gs_preset.
  - by apply gs_slider.
  - by apply gs_wave.
  - by apply gs_position.
Qed.

Lemma wizard_gs_reachable st : wizard_reachable st -> gs_reachable (gs st).
Proof.
  induction 1 as [|st st' _ IH Hstep]; [apply gs_init|].
  by apply (wizard_gs_step st).
Qed.

Lemma lookup_preset_In name l p :
  lookup_preset name l = Some p -> In (name, p) l.
Proof.
  induction l as [|[n q] l IH]; simpl; [done|].
  destruct (String.eqb n name) eqn:E; [|auto].
  apply String.eqb_eq in E as ->. intros [= ->]. by left.
Qed.

Lemma applyPreset_positions name prev :
  wave_position prev ∈ WAVE_POSITIONS -> my_position prev ∈ POSITIONS ->
  wave_position (applyPreset name prev) ∈ WAVE_POSITIONS /\
  my_position (applyPreset name prev) ∈ POSITIONS.
Proof.
  intros Hw Hp. unfold applyPreset.
  destruct (lookup_preset name PRESETS) as [p|] eqn:E; [|done].
  apply lookup_preset_In in E. unfold PRESETS in E. simpl in E.
  destruct E as [E|[E|[E|[E|[]]]]]; injection E as _ <-;
    cbn [wave_position my_position p_wave_position p_my_position];
    split; compute_done.
Qed.

Lemma updateGs_num_positions k v prev :
  wave_position (updateGs_num k v prev) = wave_position prev /\
  my_position (updateGs_num k v prev) = my_position prev.
Proof. by destruct k. Qed.

Lemma wizard_fields_step st st' :
  wizard_step st st' -> wizard_fields_ok st -> wizard_fields_ok st'.
Proof.
  intros Hstep (H1 & H2 & H3 & H4 & H5 & H6 & H7). unfold wizard_fields_ok.
  destruct Hstep; cbn [myRole enemyRole summ2 enemyModel iterations gs
    set_step set_gs set_loading analysis_done analysis_failed]; try done.
  - unfold click_indicator. by destruct (i <? 4)%Z.
  - destruct (applyPreset_positions name (gs st) H6 H7). done.
  - destruct (updateGs_num_positions k (inject_Z v) (gs st)) as [-> ->]. done.
  - repeat split; try done. by exists v.
Qed.

Lemma wizard_fields_reachable st : wizard_reachable st -> wizard_fields_ok st.
Proof.
  induction 1 as [|st st' _ IH Hstep].
  - unfold wizard_fields_ok. simpl.
    repeat split; try compute_done. exists 1000. repeat split; try lia.
    by exists 10.
  - by apply (wizard_fields_step st).
Qed.

(** X16. Whatever the user did before pressing the analyse button, the
    request that is posted is well formed: the iteration count is a
    multiple of 100 between 200 and 3000, the enemy model, the wave
    position and the player's position are values of their option lists,
    the second summoner spell is a lower-cased option other than Flash,
    and the lane state keeps its bounds. *)
Theorem analysis_request_well_formed (st : WizardState) :
  wizard_reachable st ->
  let body := analysis_request st in
  (exists v, Api.iterations body = inject_Z v /\ 200 <= v <= 3000 /\ (100 | v)) /\
  enemy_model body ∈ ENEMY_MODELS /\
  ls_wave_position (state body) ∈ WAVE_POSITIONS /\
  ls_my_position (state body) ∈ POSITIONS /\
  my_summ2_type (state body) ∈ toLowerCase <$> SUMM2_OPTIONS /\
  my_summ2_type (state body) <> "flash" /\
  lane_state_invariant (state body).
Proof.
  intros Hr. pose proof (wizard_fields_reachable st Hr) as (_ & _ & H3 & H4 & H5 & H6 & H7).
  pose proof (gs_reachable_ranges _ (wizard_gs_reachable st Hr))
    as (R1 & R2 & R3 & R4 & R5 & _).
  cbn zeta. unfold analysis_request, mctsRecommend.
  cbn [Api.iterations enemy_model state default from_option].
  cbn [runAnalysis ls_wave_position ls_my_position my_summ2_type].
  split_and!; try done.
  - by apply list_elem_of_fmap_2.
  - revert H3. generalize (summ2 st). intros s Hs.
    apply list_elem_of_In in Hs. unfold SUMM2_OPTIONS in Hs. simpl in Hs.
    repeat (destruct Hs as [<-|Hs]; [compute; discriminate|]). done.
  - apply runAnalysis_invariant; try done; lra.
Qed.

Lemma analysis_request_well_formed_witness :
  lane_state_invariant (state (analysis_request initial_wizard)) /\
  enemy_model (analysis_request initial_wizard) ∈ ENEMY_MODELS.
Proof.
  pose proof (analysis_request_well_formed initial_wizard wizard_init)
    as (_ & H2 & _ & _ & _ & _ & H7).
  exact (conj H7 H2).
Defined.

End CoachWizardFacts.

Section ActionScoresFacts.
Import Champions JsString JsNumber JsMath JsText CoachPage Api CoachWizard.

Local Open Scope Q_scope.

(** The comparator puts [x] first exactly when its share of the visits is
    at least that of [y]: rounding the difference keeps its sign. *)
Lemma by_visits_le x y :
  Qle_bool (by_visits x y) 0 = true <-> visit_pct y.2 <= visit_pct x.2.
Proof.
  unfold by_visits, sub. rewrite Qle_bool_iff.
  set (d := visit_pct y.2 - visit_pct x.2).
  destruct (round_sign d) as (Hpos & Hzero & Hneg). split.
  - intros H. destruct (Qlt_le_dec 0 d) as [Hd|Hd]; [|unfold d in Hd; lra].
    specialize (Hpos Hd). lra.
  - intros H. destruct (Qlt_le_dec d 0) as [Hd|Hd].
    + specialize (Hneg Hd). lra.
    + assert (Hd0 : d == 0) by (unfold d in *; lra).
      specialize (Hzero Hd0). lra.
Qed.

Lemma sort_insert_perm x l : sort_insert by_visits x l ≡ₚ x :: l.
Proof.
  induction l as [|y l IH]; simpl; [done|].
  destruct (Qle_bool (by_visits x y) 0); [done|].
  rewrite IH. apply Permutation_swap.
Qed.

Lemma sort_insert_sorted x l :
  StronglySorted more_visits l -> StronglySorted more_visits (sort_insert by_visits x l).
Proof.
  induction 1 as [|y l Hl IH Hy]; simpl.
  - repeat constructor.
  - destruct (Qle_bool (by_visits x y) 0) eqn:E.
    + apply by_visits_le in E. constructor; [by constructor|].
      constructor; [exact E|]. eapply Forall_impl; [exact Hy|].
      intros z Hz. unfold more_visits in *. lra.
    + assert (Hxy : more_visits y x).
      { unfold more_visits. destruct (Qlt_le_dec (visit_pct y.2) (visit_pct x.2)) as [H|H]; [|done].
        assert (E' : Qle_bool (by_visits x y) 0 = true)
          by (apply by_visits_le; lra).
        congruence. }
      constructor; [exact IH|].
      rewrite sort_insert_perm. by constructor.
Qed.

(** Entries with the share [v] only: inserting an entry never changes
    their relative order. *)
Lemma sort_insert_ties (v : Q) x l :
  let tie := fun e : string * Score => Qeq_bool (visit_pct e.2) v in
  List.filter tie (sort_insert by_visits x l) = List.filter tie (x :: l).
Proof.
  intros tie. induction l as [|y l IH]; [done|].
  cbn [sort_insert]. destruct (Qle_bool (by_visits x y) 0) eqn:E; [done|].
  cbn [List.filter] in *. rewrite IH.
  destruct (tie x) eqn:Hx; [|done]. destruct (tie y) eqn:Hy; [|done].
  unfold tie in Hx, Hy. apply Qeq_bool_iff in Hx, Hy.
  assert (E' : Qle_bool (by_visits x y) 0 = true) by (apply by_visits_le; lra).
  congruence.
Qed.

(** X17. The action breakdown lists every action of the answer exactly
    once, by decreasing share of the visits, and actions with the same
    share stay in the order of the answer. *)
Theorem action_scores_sorted_by_visits (entries : list (string * Score)) :
  sorted_scores entries ≡ₚ entries /\
  StronglySorted (fun x y => visit_pct y.2 <= visit_pct x.2) (sorted_scores entries) /\
  forall v, List.filter (fun e => Qeq_bool (visit_pct e.2) v) (sorted_scores entries)
          = List.filter (fun e => Qeq_bool (visit_pct e.2) v) entries.
Proof.
  unfold sorted_scores, sort. induction entries as [|x l (IH1 & IH2 & IH3)].
  - repeat split; constructor.
  - cbn [fold_right]. split_and!.
    + by rewrite sort_insert_perm, IH1.
    + by apply sort_insert_sorted.
    + intros v. rewrite sort_insert_ties. cbn [List.filter]. by rewrite IH3.
Qed.

End ActionScoresFacts.

Section ClockFacts.
Import Champions JsString JsNumber JsMath JsText CoachPage Api CoachWizard.

Lemma clock_label_checked :
  forallb (fun n => String.eqb (clock_label (60 + Z.of_nat n))
                               (two_digit_clock (60 + Z.of_nat n)))
          (seq 0 2341) = true.
Proof. vm_compute. reflexivity. Qed.

(** X18. For every game time the slider can report (60 to 2400 seconds)
    the label is the whole minutes, a colon, and the remaining seconds on
    exactly two digits; the division by 60 in doubles never changes the
    minute. *)
Theorem clock_label_minutes_and_seconds (val : Z) :
  (slider_range k_game_time).1 <= val <= (slider_range k_game_time).2 ->
  clock_label val = two_digit_clock val.
Proof.
  cbn [slider_range fst snd]. intros Hval.
  pose proof clock_label_checked as H. rewrite forallb_forall in H.
  specialize (H (Z.to_nat (val - 60))).
  replace (60 + Z.of_nat (Z.to_nat (val - 60))) with val in H by lia.
  apply String.eqb_eq, H. apply in_seq. lia.
Qed.

Lemma clock_label_minutes_and_seconds_witness :
  clock_label 605 = "10:05".
Proof.
  rewrite (clock_label_minutes_and_seconds 605) by (simpl; lia).
  reflexivity.
Defined.

End ClockFacts.

Section LaneStateFacts.
Import Champions JsString JsNumber CoachPage.

Local Open Scope Q_scope.

(** The levels and the game time of a reachable state are integers of
    the slider ranges. *)
Lemma gs_reachable_integral gs :
  gs_reachable gs ->
  (exists l, my_level gs = inject_Z l /\ (1 <= l <= 18)%Z) /\
  (exists l, enemy_level gs = inject_Z l /\ (1 <= l <= 18)%Z) /\
  (exists t, game_time gs = inject_Z t /\ (60 <= t <= 2400)%Z).
Proof.
  induction 1 as [|k v prev Hprev IH Hv|v prev Hprev IH|v prev Hprev IH
                  |name prev Hprev IH].
  - split_and!; [by exists 3%Z | by exists 3%Z | by exists 210%Z].
  - destruct k; cbn [updateGs_num my_level enemy_level game_time slider_range fst snd] in *;
      try exact IH; destruct IH as (I1 & I2 & I3); split_and!; try done; by exists v.
  - exact IH.
  - exact IH.
  - unfold applyPreset. destruct (lookup_preset name PRESETS) as [p|] eqn:Hp; [|done].
    unfold PRESETS in Hp. cbn [lookup_preset] in Hp.
    repeat (destruct (String.eqb _ name);
            [ injection Hp as <-; cbn [my_level enemy_level game_time p_my_level
                p_enemy_level p_game_time];
              split_and!; eexists; (split; [reflexivity | lia]) |]).
    done.
Qed.

Lemma level_stats_checked :
  forallb (fun n =>
    let l := inject_Z (1 + Z.of_nat n) in
    Qeq_bool (570 + (l - 1) * 90)%js (570 + (l - 1) * 90) &&
    Qeq_bool (418 + (l - 1) * 25)%js (418 + (l - 1) * 25) &&
    Qeq_bool (523 + (l - 1) * 85)%js (523 + (l - 1) * 85) &&
    Qeq_bool (100 + l * 15)%js (100 + l * 15)) (seq 0 18) = true.
Proof. vm_compute. reflexivity. Qed.

Lemma gold_checked :
  forallb (fun n =>
    let t := inject_Z (60 + Z.of_nat n) in
    Qeq_bool (500 + t * 2)%js (500 + t * 2)) (seq 0 2341) = true.
Proof. vm_compute. reflexivity. Qed.

Lemma level_stats_exact (l : Z) :
  (1 <= l <= 18)%Z ->
  (570 + (inject_Z l - 1) * 90)%js == 570 + (inject_Z l - 1) * 90 /\
  (418 + (inject_Z l - 1) * 25)%js == 418 + (inject_Z l - 1) * 25 /\
  (523 + (inject_Z l - 1) * 85)%js == 523 + (inject_Z l - 1) * 85 /\
  (100 + inject_Z l * 15)%js == 100 + inject_Z l * 15.
Proof.
  intros Hl. pose proof level_stats_checked as H. rewrite forallb_forall in H.
  specialize (H (Z.to_nat (l - 1))).
  replace (1 + Z.of_nat (Z.to_nat (l - 1)))%Z with l in H by lia.
  cbv zeta in H. rewrite !andb_true_iff, !Qeq_bool_iff in H.
  assert (Hin : In (Z.to_nat (l - 1)) (seq 0 18)) by (apply in_seq; lia).
  destruct (H Hin) as [[[? ?] ?] ?]. done.
Qed.

Lemma gold_exact (t : Z) :
  (60 <= t <= 2400)%Z -> (500 + inject_Z t * 2)%js == 500 + inject_Z t * 2.
Proof.
  intros Ht. pose proof gold_checked as H. rewrite forallb_forall in H.
  specialize (H (Z.to_nat (t - 60))).
  replace (60 + Z.of_nat (Z.to_nat (t - 60)))%Z with t in H by lia.
  cbv zeta in H. rewrite Qeq_bool_iff in H. apply H, in_seq. lia.
Qed.

(** X19. For every game state the page's controls can produce, the
    derived numbers of the request (both health maxima, the mana maximum,
    the gold and both combat powers) are computed without any rounding
    error: they equal the exact values of their formulas. *)
Theorem derived_stats_exact (myChamp enemyChamp summ2 : string) (gs : GameState) :
  gs_reachable gs ->
  let s := runAnalysis myChamp enemyChamp summ2 gs in
  my_hp_max s == 570 + (my_level gs - 1) * 90 /\
  my_mana_max s == 418 + (my_level gs - 1) * 25 /\
  enemy_hp_max s == 523 + (enemy_level gs - 1) * 85 /\
  my_gold s == 500 + game_time gs * 2 /\
  my_combat_power s == 100 + my_level gs * 15 /\
  enemy_combat_power s == 100 + enemy_level gs * 15.
Proof.
  intros Hr. destruct (gs_reachable_integral gs Hr)
    as ((l & Hl & Hlr) & (el & Hel & Helr) & (t & Ht & Htr)).
  cbn zeta. cbn [runAnalysis my_hp_max my_mana_max enemy_hp_max my_gold
    my_combat_power enemy_combat_power]. rewrite Hl, Hel, Ht.
  destruct (level_stats_exact l Hlr) as (A1 & A2 & _ & A4).
  destruct (level_stats_exact el Helr) as (_ & _ & B3 & B4).
  pose proof (gold_exact t Htr). done.
Qed.

Lemma derived_stats_exact_witness :
  my_hp_max (runAnalysis "Ahri" "Syndra" "Ignite" (applyPreset "Mid Game" initial_gs))
  == 1470.
Proof.
  pose proof (derived_stats_exact "Ahri" "Syndra" "Ignite"
                (applyPreset "Mid Game" initial_gs)
                (gs_preset "Mid Game" _ gs_init)) as (H & _).
  rewrite H. reflexivity.
Defined.

(** A share of 100% of a maximum is the maximum, and 0% is 0. *)
Lemma scaled_share_full pct max :
  pct == 100 -> representable max -> ((pct / 100) * max)%js == max.
Proof.
  intros Hp Hm. unfold mul, div.
  assert (H1 : pct / 100 == 1) by (rewrite Hp; reflexivity).
  rewrite H1, round_1, Qmult_1_l. exact Hm.
Qed.

Lemma scaled_share_empty pct max :
  pct == 0 -> ((pct / 100) * max)%js == 0.
Proof.
  intros Hp. unfold mul, div.
  assert (H1 : pct / 100 == 0) by (rewrite Hp; reflexivity).
  rewrite H1, round_0, Qmult_0_l. apply round_0.
Qed.

(** X20. The two ends of the percentage sliders are exact: at 100% the
    health or mana sent is the maximum itself, and at 0% it is 0, for the
    player's health, the player's mana and the enemy's health, at every
    level. *)
Theorem full_and_empty_bars_exact (myChamp enemyChamp summ2 : string) (gs : GameState) :
  let s := runAnalysis myChamp enemyChamp summ2 gs in
  (my_hp_pct gs == 100 -> my_hp s == my_hp_max s) /\
  (my_hp_pct gs == 0 -> my_hp s == 0) /\
  (my_mana_pct gs == 100 -> my_mana s == my_mana_max s) /\
  (my_mana_pct gs == 0 -> my_mana s == 0) /\
  (enemy_hp_pct gs == 100 -> enemy_hp s == enemy_hp_max s) /\
  (enemy_hp_pct gs == 0 -> enemy_hp s == 0).
Proof.
  cbn zeta. cbn [runAnalysis my_hp my_hp_max my_mana my_mana_max enemy_hp enemy_hp_max].
  split_and!; intros H;
    (by apply scaled_share_empty) ||
    (apply scaled_share_full; [exact H | apply round_representable]).
Qed.

Lemma full_and_empty_bars_exact_witness :
  let s := runAnalysis "Ahri" "Syndra" "Ignite" (applyPreset "Level 1 Start" initial_gs) in
  my_hp s == 570 /\ enemy_hp s == 523.
Proof.
  intros s.
  pose proof (full_and_empty_bars_exact "Ahri" "Syndra" "Ignite"
                (applyPreset "Level 1 Start" initial_gs)) as (H1 & _ & _ & _ & H5 & _).
  split.
  - eapply Qeq_trans; [exact (H1 (Qeq_refl 100)) | vm_compute; reflexivity].
  - eapply Qeq_trans; [exact (H5 (Qeq_refl 100)) | vm_compute; reflexivity].
Defined.

Lemma level_curve_mono base growth l1 l2 :
  0 <= growth -> l1 <= l2 ->
  (base + (l1 - 1) * growth)%js <= (base + (l2 - 1) * growth)%js.
Proof.
  intros Hg Hl. unfold add, mul, sub. apply round_mono.
  apply Qplus_le_r. apply round_mono. apply Qmult_le_compat_r; [|done].
  apply round_mono. lra.
Qed.

Lemma scaled_share_mono p1 p2 m1 m2 :
  0 <= p1 -> p1 <= p2 -> 0 <= m1 -> m1 <= m2 ->
  ((p1 / 100) * m1)%js <= ((p2 / 100) * m2)%js.
Proof.
  intros Hp0 Hp Hm0 Hm. unfold mul, div. apply round_mono.
  assert (H1 : 0 <= round (p1 / 100)).
  { apply round_nonneg. apply Qle_shift_div_l; [reflexivity | lra]. }
  assert (H2 : round (p1 / 100) <= round (p2 / 100)).
  { apply round_mono. apply Qmult_le_compat_r; [done | discriminate]. }
  apply Qle_trans with (round (p1 / 100) * m2).
  - rewrite !(Qmult_comm (round (p1 / 100))). by apply Qmult_le_compat_r.
  - apply Qmult_le_compat_r; [done | lra].
Qed.

(** X21. The numbers sent are monotone in the sliders, rounding included:
    a state with at least the levels and at least the health and mana
    percentages of another sends at least its health, mana, maxima and
    combat powers, and a later game time sends at least as much gold. *)
Theorem lane_state_monotone (myChamp enemyChamp summ2 : string) (g1 g2 : GameState) :
  1 <= my_level g1 <= my_level g2 ->
  1 <= enemy_level g1 <= enemy_level g2 ->
  0 <= my_hp_pct g1 <= my_hp_pct g2 ->
  0 <= my_mana_pct g1 <= my_mana_pct g2 ->
  0 <= enemy_hp_pct g1 <= enemy_hp_pct g2 ->
  game_time g1 <= game_time g2 ->
  let s1 := runAnalysis myChamp enemyChamp summ2 g1 in
  let s2 := runAnalysis myChamp enemyChamp summ2 g2 in
  my_hp_max s1 <= my_hp_max s2 /\ my_hp s1 <= my_hp s2 /\
  my_mana_max s1 <= my_mana_max s2 /\ my_mana s1 <= my_mana s2 /\
  enemy_hp_max s1 <= enemy_hp_max s2 /\ enemy_hp s1 <= enemy_hp s2 /\
  my_combat_power s1 <= my_combat_power s2 /\
  enemy_combat_power s1 <= enemy_combat_power s2 /\
  my_gold s1 <= my_gold s2.
Proof.
  intros [Hl1 Hl] [He1 He] [Hh0 Hh] [Hm0 Hm] [Heh0 Heh] Ht. cbn zeta.
  cbn [runAnalysis my_hp my_hp_max my_mana my_mana_max enemy_hp enemy_hp_max
       my_combat_power enemy_combat_power my_gold].
  destruct (level_curve_bounds 570 90 (my_level g1)) as [? _]; [discriminate..|done|].
  destruct (level_curve_bounds 418 25 (my_level g1)) as [? _]; [discriminate..|done|].
  destruct (level_curve_bounds 523 85 (enemy_level g1)) as [? _]; [discriminate..|done|].
  split_and!;
    try (apply level_curve_mono; [discriminate | done]);
    try (apply scaled_share_mono; try done; apply level_curve_mono; [discriminate | done]).
  - unfold add, mul. apply round_mono, Qplus_le_r, round_mono.
    apply Qmult_le_compat_r; [done | discriminate].
  - unfold add, mul. apply round_mono, Qplus_le_r, round_mono.
    apply Qmult_le_compat_r; [done | discriminate].
  - unfold add, mul. apply round_mono, Qplus_le_r, round_mono.
    apply Qmult_le_compat_r; [done | discriminate].
Qed.

Lemma lane_state_monotone_witness :
  my_hp (runAnalysis "Ahri" "Syndra" "Ignite" initial_gs)
  <= my_hp (runAnalysis "Ahri" "Syndra" "Ignite" (updateGs_num k_my_hp_pct 93 initial_gs)).
Proof.
  pose proof (lane_state_monotone "Ahri" "Syndra" "Ignite" initial_gs
                (updateGs_num k_my_hp_pct 93 initial_gs)) as H.
  cbn [updateGs_num initial_gs my_level enemy_level my_hp_pct my_mana_pct
       enemy_hp_pct game_time] in H.
  refine (proj1 (proj2 (H _ _ _ _ _ _))); try (split; discriminate); discriminate.
Defined.

End LaneStateFacts.

Section PresetFacts.
Import Champions JsString JsNumber CoachPage CoachWizard.

Lemma lookup_preset_names name l :
  In name (List.map fst l) -> exists p, lookup_preset name l = Some p.
Proof.
  induction l as [|[n q] l IH]; simpl; [done|].
  destruct (String.eqb n name) eqn:E; [by eexists|].
  intros [->|H]; [by rewrite String.eqb_refl in E | by apply IH].
Qed.

Lemma lookup_preset_None name l :
  ~ In name (List.map fst l) -> lookup_preset name l = None.
Proof.
  induction l as [|[n q] l IH]; simpl; [done|]. intros H.
  destruct (String.eqb n name) eqn:E.
  - apply String.eqb_eq in E. tauto.
  - apply IH. tauto.
Qed.

(** X22. A preset button overrides everything that was set before it,
    whether by sliders, selects or another preset, except the mana
    percentage, which no preset touches; a name that is not a preset
    changes nothing. *)
Theorem preset_overrides_all_but_mana (name : string) :
  (In name PRESET_NAMES ->
   forall g g', my_mana_pct g = my_mana_pct g' -> applyPreset name g = applyPreset name g') /\
  (forall g, my_mana_pct (applyPreset name g) = my_mana_pct g) /\
  (~ In name PRESET_NAMES -> forall g, applyPreset name g = g).
Proof.
  unfold PRESET_NAMES, applyPreset. split_and!.
  - intros Hn g g' Hm. destruct (lookup_preset_names name PRESETS Hn) as [p ->].
    by rewrite Hm.
  - intros g. by destruct (lookup_preset name PRESETS).
  - intros Hn g. by rewrite lookup_preset_None.
Qed.

Lemma preset_overrides_all_but_mana_witness :
  applyPreset "Mid Game" (applyPreset "Level 6 All-in" initial_gs)
  = applyPreset "Mid Game" (updateGs_num k_my_level 17 initial_gs).
Proof.
  apply (proj1 (preset_overrides_all_but_mana "Mid Game")).
  - unfold PRESET_NAMES. simpl. auto.
  - reflexivity.
Defined.

End PresetFacts.

Section PercentageFacts.
Import JsString ConfidenceMeter ConfidenceLabels.

Lemma parse_digits_uint acc d :
  parse_digits acc (NilEmpty.string_of_uint d) = uint_value acc d.
Proof. revert acc. induction d; intros acc; simpl; try done; apply IHd. Qed.

Lemma all_digits_uint d : all_digits (NilEmpty.string_of_uint d) = true.
Proof. induction d; simpl; done. Qed.

Lemma uint_value_acc d acc :
  uint_value (Z.pos acc) d = Z.pos (Pos.of_uint_acc d acc).
Proof.
  revert acc. induction d; intros acc; cbn [uint_value Pos.of_uint_acc]; try done;
    rewrite <- IHd; f_equal; lia.
Qed.

Lemma uint_value_of_uint d : uint_value 0 d = Z.of_uint d.
Proof.
  unfold Z.of_uint. induction d; cbn [uint_value Pos.of_uint]; try done;
    change (10 * 0 + ?k) with k; rewrite uint_value_acc; reflexivity.
Qed.

Lemma number_to_string_digits n :
  0 <= n ->
  number_to_string n <> "" /\ all_digits (number_to_string n) = true /\
  parseInt (number_to_string n) = n.
Proof.
  intros Hn. unfold number_to_string, parseInt.
  pose proof (DecimalZ.of_to n) as Hto.
  destruct (Z.to_int n) as [d|d] eqn:Hd.
  - cbn [NilZero.string_of_int Z.of_int] in *.
    destruct d; cbn [NilZero.string_of_uint];
      try (split_and!; [done | apply all_digits_uint |
                        by rewrite parse_digits_uint, uint_value_of_uint]).
    split_and!; done.
  - destruct n; simpl in Hd; try discriminate. lia.
Qed.

Lemma plain_prefix_cons c pre :
  plain_prefix (String c pre) = true <->
  Ascii.eqb c "%" = false /\ plain_prefix pre = true /\
  (is_digit c = true -> pre <> "").
Proof.
  cbn [plain_prefix]. rewrite !andb_true_iff, orb_true_iff, !negb_true_iff.
  destruct (is_digit c); destruct pre; simpl; intuition congruence.
Qed.

Lemma plain_prefix_no_match c pre s :
  plain_prefix (String c pre) = true ->
  exists ds c' r, span_digits (String c pre ++ s) = (ds, String c' r) /\
                  Ascii.eqb c' "%" = false.
Proof.
  revert c. induction pre as [|c0 pre IH]; intros c H;
    apply plain_prefix_cons in H as (Hc & Hpre & Hend);
    change (String c ?p ++ s) with (String c (p ++ s)); cbn [span_digits];
    destruct (is_digit c) eqn:Hd; try (by eexists _, _, _).
  - by destruct Hend.
  - destruct (IH c0 Hpre) as (ds & c' & r & Hs & Hc').
    rewrite Hs. by eexists _, _, _.
Qed.

Lemma match_pct_after_plain pre ds post :
  plain_prefix pre = true -> ds <> "" -> all_digits ds = true ->
  match_pct (pre ++ ds ++ "%" ++ post) = Some ds.
Proof.
  intros Hpre Hne Hd. induction pre as [|c pre IH]; rewrite match_pct_unfold.
  - change ("" ++ ds ++ "%" ++ post) with (ds ++ "%" ++ post).
    by rewrite match_pct_here_app.
  - destruct (plain_prefix_no_match c pre (ds ++ "%" ++ post) Hpre)
      as (ds' & c' & r & Hs & Hc').
    unfold match_pct_here. rewrite Hs, Hc'.
    apply plain_prefix_cons in Hpre as (_ & Hpre & _).
    destruct ds'; cbn [append]; by apply IH.
Qed.

(** X23. A label that carries a percentage shows it: when the text before
    the number has no percent sign and does not end in a digit, the
    percentage read back is the number that was printed, and the bar is
    that many percent wide. *)
Theorem printed_percentage_is_read_back (pre post : string) (n : Z) :
  0 <= n < 2 ^ 53 -> plain_prefix pre = true ->
  let label := pre ++ number_to_string n ++ "%" ++ post in
  pct_of_label label = n /\
  bar_width (ConfidenceMeter label) = number_to_string n ++ "%".
Proof.
  intros [Hn _] Hpre label.
  destruct (number_to_string_digits n Hn) as (Hne & Hd & Hp).
  assert (H : pct_of_label label = n).
  { unfold pct_of_label, label. by rewrite match_pct_after_plain. }
  split; [exact H|]. unfold ConfidenceMeter. cbn [bar_width]. by rewrite H.
Qed.

Lemma printed_percentage_is_read_back_witness :
  pct_of_label "Top 3 pick, HIGH (78%)" = 78.
Proof.
  apply (printed_percentage_is_read_back "Top 3 pick, HIGH (" ")" 78).
  - lia.
  - reflexivity.
Defined.

End PercentageFacts.

